(** * https-server: connection lifecycle, traffic handler and pooled buffers

    A shallow embedding of [server.go]: the accept loop [Run], the
    per-connection supervisor [handleConnection], the one-shot traffic handler
    [onTraffic] and the two response builders [SendStatus] and [SendBody],
    which assemble their bytes in a [bytes.Buffer] taken from a pool.

    Go values are modelled as follows.
    - [string] and [[]byte]: a Go string is a [string]; the contents of a
      byte slice is a [list ascii].
    - [int]: [Z] (the program only prints integers, it never computes with
      them, so no wrap-around arises).
    - [error]: an inductive type; a nil error is [None].
    - Heap objects ([bytes.Buffer], the arrays that back byte slices) live
      in a store indexed by natural numbers, so that two slices over one
      array alias each other as they do in Go.
    - Calls that reach outside the program (the clock, the peer, the
      listener, the log) append to a trace of events held in the world.
    - A [go] statement appends the start of the goroutine to the trace;
      what the goroutine then does is not part of the caller's trace. *)

From Stdlib Require Import ZArith String Ascii List DecimalString Lia.
From stdpp Require Import base list gmap strings.

Local Open Scope string_scope.
Local Open Scope Z_scope.

(** ** Basic Go types *)

Abbreviation bytes := (list ascii).

Definition Time := Z.
Definition Duration := Z.

(** [time.Second], in nanoseconds. *)
Definition time_Second : Duration := 1000000000.

Definition Time_Add (t : Time) (d : Duration) : Time := t + d.

Inductive error : Type :=
| io_EOF
| os_ErrDeadlineExceeded
| errors_New (msg : string)
| fmt_Errorf (prefix : string) (wrapped : error).

Fixpoint Error (e : error) : string :=
  match e with
  | io_EOF => "EOF"
  | os_ErrDeadlineExceeded => "i/o timeout"
  | errors_New msg => msg
  | fmt_Errorf prefix wrapped => prefix +:+ Error wrapped
  end.

Global Instance error_eq_dec : EqDecision error.
Proof. solve_decision. Defined.

Definition CR : ascii := ascii_of_nat 13.
Definition LF : ascii := ascii_of_nat 10.
Definition CRLF : string := String CR (String LF EmptyString).

(** [fmt.Sprintf("%d", n)]. *)
Definition fmt_d (n : Z) : string := NilZero.string_of_int (Z.to_int n).

(** ** [strings.ToLower] and header keys *)

Definition is_upper (c : ascii) : bool :=
  ((65 <=? nat_of_ascii c) && (nat_of_ascii c <=? 90))%nat.

Definition is_lower (c : ascii) : bool :=
  ((97 <=? nat_of_ascii c) && (nat_of_ascii c <=? 122))%nat.

Definition lower_byte (c : ascii) : ascii :=
  if is_upper c then ascii_of_nat (nat_of_ascii c + 32) else c.

Definition upper_byte (c : ascii) : ascii :=
  if is_lower c then ascii_of_nat (nat_of_ascii c - 32) else c.

(** [strings.ToLower] on the bytes of the string. Outside ASCII Go maps whole
    runes; no rune outside ASCII is mapped to one of the letters of
    ["close"], so the comparison made by [onTraffic] is the same. *)
Fixpoint strings_ToLower (s : string) : string :=
  match s with
  | EmptyString => EmptyString
  | String c r => String (lower_byte c) (strings_ToLower r)
  end.

(** [textproto]'s token bytes: the bytes allowed in a header field name. *)
Definition validHeaderFieldByte (c : ascii) : bool :=
  let n := nat_of_ascii c in
  (is_upper c || is_lower c || ((48 <=? n) && (n <=? 57))
   || existsb (Nat.eqb n) [33; 35; 36; 37; 38; 39; 42; 43; 45; 46; 94; 95; 96; 124; 126])%nat.

Fixpoint all_bytes (p : ascii -> bool) (s : string) : bool :=
  match s with
  | EmptyString => true
  | String c r => p c && all_bytes p r
  end.

Fixpoint canonical_from (upper : bool) (s : string) : string :=
  match s with
  | EmptyString => EmptyString
  | String c r =>
      String (if upper then upper_byte c else lower_byte c)
             (canonical_from (Ascii.eqb c "-") r)
  end.

(** [textproto.CanonicalMIMEHeaderKey]. *)
Definition CanonicalMIMEHeaderKey (s : string) : string :=
  if all_bytes validHeaderFieldByte s then canonical_from true s else s.

(** [http.Header] is a [map[string][]string]. *)
Definition Header_Get (h : gmap string (list string)) (key : string) : string :=
  match h !! CanonicalMIMEHeaderKey key with
  | Some (v :: _) => v
  | _ => ""
  end.

Record Request : Type := mkRequest {
  Method : string;
  RequestURI : string;
  Proto : string;
  Header : gmap string (list string);
}.

(** ** [http.StatusText] *)

Definition http_StatusOK : Z := 200.

Definition http_StatusText (code : Z) : string :=
  match code with
  | 100 => "Continue"
  | 101 => "Switching Protocols"
  | 102 => "Processing"
  | 103 => "Early Hints"
  | 200 => "OK"
  | 201 => "Created"
  | 202 => "Accepted"
  | 203 => "Non-Authoritative Information"
  | 204 => "No Content"
  | 205 => "Reset Content"
  | 206 => "Partial Content"
  | 207 => "Multi-Status"
  | 208 => "Already Reported"
  | 226 => "IM Used"
  | 300 => "Multiple Choices"
  | 301 => "Moved Permanently"
  | 302 => "Found"
  | 303 => "See Other"
  | 304 => "Not Modified"
  | 305 => "Use Proxy"
  | 307 => "Temporary Redirect"
  | 308 => "Permanent Redirect"
  | 400 => "Bad Request"
  | 401 => "Unauthorized"
  | 402 => "Payment Required"
  | 403 => "Forbidden"
  | 404 => "Not Found"
  | 405 => "Method Not Allowed"
  | 406 => "Not Acceptable"
  | 407 => "Proxy Authentication Required"
  | 408 => "Request Timeout"
  | 409 => "Conflict"
  | 410 => "Gone"
  | 411 => "Length Required"
  | 412 => "Precondition Failed"
  | 413 => "Request Entity Too Large"
  | 414 => "Request URI Too Long"
  | 415 => "Unsupported Media Type"
  | 416 => "Requested Range Not Satisfiable"
  | 417 => "Expectation Failed"
  | 418 => "I'm a teapot"
  | 421 => "Misdirected Request"
  | 422 => "Unprocessable Entity"
  | 423 => "Locked"
  | 424 => "Failed Dependency"
  | 425 => "Too Early"
  | 426 => "Upgrade Required"
  | 428 => "Precondition Required"
  | 429 => "Too Many Requests"
  | 431 => "Request Header Fields Too Large"
  | 451 => "Unavailable For Legal Reasons"
  | 500 => "Internal Server Error"
  | 501 => "Not Implemented"
  | 502 => "Bad Gateway"
  | 503 => "Service Unavailable"
  | 504 => "Gateway Timeout"
  | 505 => "HTTP Version Not Supported"
  | 506 => "Variant Also Negotiates"
  | 507 => "Insufficient Storage"
  | 508 => "Loop Detected"
  | 510 => "Not Extended"
  | 511 => "Network Authentication Required"
  | _ => ""
  end.

(** ** The world: heap, pool, counters and the trace of events *)

(** A [bytes.Buffer]: its field [buf] is a slice that starts at index 0 of
    its backing array ([buf_array], [None] for the nil slice) and has length
    [buf_len]; its capacity is the length of the array. The read offset
    [off] is 0 throughout, since the program never reads from a buffer. *)
Record Buffer : Type := mkBuffer {
  buf_array : option nat;
  buf_len : nat;
}.

(** A [[]byte] value: a window on a backing array. *)
Record Slice : Type := mkSlice {
  sl_array : option nat;
  sl_off : nat;
  sl_len : nat;
}.

(** Modelled from the spec: the Connection wrapper (the type [Connection]
    with [NewConnection], [Read], [Write], [SetReadDeadline] and [Close]) is
    not among the sources; section 6 of the specification gives its
    interface. The peer is an oracle: what the n-th [Read] returns and
    whether the n-th [Write] fails. *)
Record Connection : Type := mkConnection {
  read_result : nat -> bytes * option error;
  write_result : nat -> option error;
}.

Inductive Event : Type :=
| EvNow (t : Time)
| EvRead (data : bytes) (err : option error)
| EvWrite (data : bytes) (err : option error)
| EvSetReadDeadline (t : Time)
| EvClose
| EvLog (msg : string)
| EvGet (b : nat)
| EvPut (b : nat)
| EvListen (address : string) (err : option error)
| EvAccept (err : option error)
| EvGo (conn : Connection)
| EvGoLog (msg : string).

Record World : Type := mkWorld {
  arrays : list bytes;        (* backing arrays of byte slices *)
  buffers : list Buffer;      (* the bytes.Buffer objects *)
  bufferPool : list nat;      (* s.bufferPool: the buffers at rest *)
  ticks : nat;                (* calls of time.Now so far *)
  reads : nat;                (* calls of conn.Read so far *)
  writes : nat;               (* calls of conn.Write so far *)
  accepts : nat;              (* calls of Accept so far *)
  trace : list Event;
}.

Definition set_arrays (f : list bytes -> list bytes) (w : World) : World :=
  mkWorld (f (arrays w)) (buffers w) (bufferPool w) (ticks w) (reads w) (writes w) (accepts w) (trace w).
Definition set_buffers (f : list Buffer -> list Buffer) (w : World) : World :=
  mkWorld (arrays w) (f (buffers w)) (bufferPool w) (ticks w) (reads w) (writes w) (accepts w) (trace w).
Definition set_bufferPool (f : list nat -> list nat) (w : World) : World :=
  mkWorld (arrays w) (buffers w) (f (bufferPool w)) (ticks w) (reads w) (writes w) (accepts w) (trace w).
Definition set_ticks (f : nat -> nat) (w : World) : World :=
  mkWorld (arrays w) (buffers w) (bufferPool w) (f (ticks w)) (reads w) (writes w) (accepts w) (trace w).
Definition set_reads (f : nat -> nat) (w : World) : World :=
  mkWorld (arrays w) (buffers w) (bufferPool w) (ticks w) (f (reads w)) (writes w) (accepts w) (trace w).
Definition set_writes (f : nat -> nat) (w : World) : World :=
  mkWorld (arrays w) (buffers w) (bufferPool w) (ticks w) (reads w) (f (writes w)) (accepts w) (trace w).
Definition set_accepts (f : nat -> nat) (w : World) : World :=
  mkWorld (arrays w) (buffers w) (bufferPool w) (ticks w) (reads w) (writes w) (f (accepts w)) (trace w).
Definition record (e : Event) (w : World) : World :=
  mkWorld (arrays w) (buffers w) (bufferPool w) (ticks w) (reads w) (writes w) (accepts w) (trace w ++ [e])%list.

(** The world of a server just built by [NewServer]: nothing allocated, the
    pool empty. *)
Definition NewServer : World := mkWorld [] [] [] 0 0 0 0 [].

(** ** A state monad over the world *)

Definition M (A : Type) : Type := World -> A * World.

Definition ret {A} (a : A) : M A := fun w => (a, w).

Definition bind {A B} (m : M A) (k : A -> M B) : M B :=
  fun w => let (a, w') := m w in k a w'.

Declare Scope go_scope.
Delimit Scope go_scope with go.
Notation "x <- m ;; k" := (bind m (fun x => k))
  (at level 100, m at next level, right associativity) : go_scope.
Notation "m ;; k" := (bind m (fun _ => k))
  (at level 100, right associativity) : go_scope.
Local Open Scope go_scope.

Definition emit (e : Event) : M unit := fun w => (tt, record e w).

(** What is outside the program and is not the peer of a connection. *)
Class Environment : Type := {
  clock : nat -> Time;                        (* the n-th time.Now() *)
  pool_pick : list nat -> option nat;         (* which buffer at rest Get hands out *)
  RFC1123 : Time -> string;                   (* t.Format(time.RFC1123) *)
  http_ReadRequest : bytes -> Request + error;(* http.ReadRequest on the bytes read *)
  net_Listen : string -> option error;        (* net.Listen("tcp", address) *)
  accept_result : nat -> Connection + error;  (* the n-th listenerTLS.Accept() *)
}.

(** ** [bytes.Buffer] *)

Definition zero_byte : ascii := ascii_of_nat 0.

Definition smallBufferSize : nat := 64.

(** [copy(dst[pos:], src)]. *)
Definition copy_at (dst : bytes) (pos : nat) (src : bytes) : bytes :=
  (take pos dst ++ take (length dst - pos) src ++ drop (pos + length src) dst)%list.

Definition array_of (w : World) (a : option nat) : bytes :=
  match a with
  | Some i => default [] (arrays w !! i)
  | None => []
  end.

(** [b.Reset()]: [b.buf = b.buf[:0]], the array is kept. *)
Definition Buffer_Reset (b : nat) : M unit := fun w =>
  (tt, set_buffers (alter (fun B => mkBuffer (buf_array B) 0) b) w).

(** [b.WriteString(s)]: [tryGrowByReslice], else [grow], then [copy]. With
    [off = 0] the slide-down case of [grow] cannot occur; the new capacity is
    that of [growSlice], [max (len + n) (2 * cap)]. *)
Definition Buffer_WriteString (b : nat) (s : string) : M unit := fun w =>
  match buffers w !! b with
  | None => (tt, w)
  | Some B =>
      let data := list_ascii_of_string s in
      let n := length data in
      let l := buf_len B in
      let old := array_of w (buf_array B) in
      if (n <=? length old - l)%nat then
        match buf_array B with
        | Some a =>
            (tt, set_buffers (<[b := mkBuffer (Some a) (l + n)]>)
                   (set_arrays (<[a := copy_at old l data]>) w))
        | None => (tt, w)
        end
      else
        let fresh :=
          if bool_decide (buf_array B = None) && (n <=? smallBufferSize)%nat
          then replicate smallBufferSize zero_byte
          else (take l old ++ replicate (Nat.max (l + n) (2 * length old) - l) zero_byte)%list in
        (tt, set_buffers (<[b := mkBuffer (Some (length (arrays w))) (l + n)]>)
               (set_arrays (fun arrs => (arrs ++ [copy_at fresh l data])%list) w))
  end.

(** [b.Bytes()]: the slice [b.buf[b.off:]], which shares the buffer's array. *)
Definition Buffer_Bytes (b : nat) : M Slice := fun w =>
  match buffers w !! b with
  | Some B => (mkSlice (buf_array B) 0 (buf_len B), w)
  | None => (mkSlice None 0 0, w)
  end.

(** The bytes seen through a slice in the current heap. *)
Definition view (sl : Slice) (w : World) : bytes :=
  take (sl_len sl) (drop (sl_off sl) (array_of w (sl_array sl))).

Definition load (sl : Slice) : M bytes := fun w => (view sl w, w).

(** ** The program *)

Section Server.
Context {env : Environment}.

(** [time.Now()]. *)
Definition time_Now : M Time := fun w =>
  let t := clock (ticks w) in (t, record (EvNow t) (set_ticks S w)).

(** [log.Printf]. *)
Definition log_Printf (msg : string) : M unit := emit (EvLog msg).

(** [go log.Printf(...)]: the statement only starts a goroutine, which
    writes the entry on its own; when it does is not for the caller to
    say, so the caller's trace holds the start and no log entry. *)
Definition go_log_Printf (msg : string) : M unit := emit (EvGoLog msg).

(** *** [sync.Pool]

    [Get] hands out any one of the buffers at rest, or a new one made by
    [New] (here [bytes.NewBuffer(nil)]); which of them is not for the
    program to say: [pool_pick] names the position of the buffer handed out
    among those at rest, or none to have a new one made. *)
Definition pool_choice (w : World) : option (nat * list nat) :=
  match pool_pick (bufferPool w) with
  | Some i =>
      match bufferPool w !! i with
      | Some b => Some (b, delete i (bufferPool w))
      | None => None
      end
  | None => None
  end.

Definition Pool_Get : M nat := fun w =>
  match pool_choice w with
  | Some (b, rest) => (b, record (EvGet b) (set_bufferPool (fun _ => rest) w))
  | None =>
      let b := length (buffers w) in
      (b, record (EvGet b) (set_buffers (fun bs => (bs ++ [mkBuffer None 0])%list) w))
  end.

Definition Pool_Put (b : nat) : M unit := fun w =>
  (tt, record (EvPut b) (set_bufferPool (cons b) w)).

(** *** The Connection wrapper *)

(** Modelled from the spec: [Read], [Write], [SetReadDeadline] and [Close]
    of the missing [Connection] type, after section 6: a read yields bytes,
    end-of-stream or an error, a write yields an error or nil; each call is
    recorded in the trace. *)
Definition Conn_Read (conn : Connection) : M (bytes * option error) := fun w =>
  let r := read_result conn (reads w) in
  (r, record (EvRead (fst r) (snd r)) (set_reads S w)).

Definition Conn_Write (conn : Connection) (data : bytes) : M (option error) := fun w =>
  let r := write_result conn (writes w) in
  (r, record (EvWrite data r) (set_writes S w)).

Definition Conn_SetReadDeadline (conn : Connection) (t : Time) : M unit :=
  emit (EvSetReadDeadline t).

Definition Conn_Close (conn : Connection) : M unit := emit EvClose.

(** Modelled from the spec: [NewConnection] wraps the accepted stream and
    owns it; the wrapper adds nothing to it here. *)
Definition NewConnection (conn : Connection) : Connection := conn.

(** *** Response builders *)

Definition SendStatus (statusCode : Z) : M Slice :=
  buffer <- Pool_Get ;;
  (* defer s.bufferPool.Put(buffer) *)
  Buffer_Reset buffer ;;
  Buffer_WriteString buffer
    ("HTTP/1.1 " +:+ fmt_d statusCode +:+ " " +:+ http_StatusText statusCode +:+ CRLF) ;;
  Buffer_WriteString buffer ("Content-Length: 0" +:+ CRLF) ;;
  now <- time_Now ;;
  Buffer_WriteString buffer ("Date: " +:+ RFC1123 now +:+ CRLF) ;;
  Buffer_WriteString buffer CRLF ;;
  result <- Buffer_Bytes buffer ;;
  (* the deferred Put runs once the result has been evaluated *)
  Pool_Put buffer ;;
  ret result.

Definition SendBody (statusCode : Z) (body : string) : M Slice :=
  buffer <- Pool_Get ;;
  (* defer s.bufferPool.Put(buffer) *)
  Buffer_Reset buffer ;;
  Buffer_WriteString buffer
    ("HTTP/1.1 " +:+ fmt_d statusCode +:+ " " +:+ http_StatusText statusCode +:+ CRLF) ;;
  Buffer_WriteString buffer
    ("Content-Length: " +:+ fmt_d (Z.of_nat (String.length body)) +:+ CRLF) ;;
  now <- time_Now ;;
  Buffer_WriteString buffer ("Date: " +:+ RFC1123 now +:+ CRLF) ;;
  Buffer_WriteString buffer CRLF ;;
  Buffer_WriteString buffer body ;;
  result <- Buffer_Bytes buffer ;;
  Pool_Put buffer ;;
  ret result.

(** *** The traffic handler: one read, parse and respond cycle *)

Definition badRequest : string :=
  "HTTP/1.1 400 Bad Request" +:+ CRLF +:+ "Content-Length: 0" +:+ CRLF +:+ CRLF.

Definition onTraffic (conn : Connection) : M (option error) :=
  r <- Conn_Read conn ;;
  match snd r with
  | Some errRead =>
      if decide (errRead = io_EOF)
      then ret None          (* client closed the connection gracefully *)
      else ret (Some errRead) (* actual read error *)
  | None =>
      match http_ReadRequest (fst r) with
      | inr errParse =>
          go_log_Printf ("failed to parse HTTP request: " +:+ Error errParse) ;;
          _ <- Conn_Write conn (list_ascii_of_string badRequest) ;;
          ret None           (* don't close the connection on a bad request *)
      | inl req =>
          response <- SendStatus http_StatusOK ;;
          payload <- load response ;;
          _ <- Conn_Write conn payload ;;
          if decide (strings_ToLower (Header_Get (Header req) "Connection") = "close")
          then ret (Some io_EOF) (* signal to close the connection *)
          else ret None          (* keep the connection open *)
      end
  end.

(** *** The connection supervisor *)

(** The [for] loop of [handleConnection], run for at most [fuel] cycles.
    The result is [true] when the loop was left by [break], [false] when
    the fuel ran out with the loop still going. *)
Fixpoint handleConnection_loop (fuel : nat) (conn : Connection) : M bool :=
  match fuel with
  | O => ret false
  | S fuel' =>
      errOnTraffic <- onTraffic conn ;;
      match errOnTraffic with
      | Some _ => ret true
      | None =>
          (* reset the timeout after successful activity *)
          now <- time_Now ;;
          Conn_SetReadDeadline conn (Time_Add now (3 * time_Second)) ;;
          handleConnection_loop fuel' conn
      end
  end.

(** [handleConnection]; the deferred [conn.Close()] runs when the function
    returns, that is when the loop has been left. *)
Definition handleConnection (fuel : nat) (conn : Connection) : M bool :=
  now <- time_Now ;;
  Conn_SetReadDeadline conn (Time_Add now (5 * time_Second)) ;;
  left <- handleConnection_loop fuel conn ;;
  if left : bool then (Conn_Close conn ;; ret true) else ret false.

(** *** The accept loop *)

Definition Listener_Accept : M (Connection + error) := fun w =>
  let r := accept_result (accepts w) in
  (r, record (EvAccept (match r with inl _ => None | inr e => Some e end))
        (set_accepts S w)).

(** The [for] loop of [Run], run for [fuel] iterations; it has no exit. *)
Fixpoint Run_loop (fuel : nat) : M unit :=
  match fuel with
  | O => ret tt
  | S fuel' =>
      r <- Listener_Accept ;;
      match r with
      | inr err =>
          log_Printf ("failed to accept connection: " +:+ Error err) ;;
          Run_loop fuel'
      | inl conn =>
          (* go s.handleConnection(NewConnection(conn)) *)
          emit (EvGo (NewConnection conn)) ;;
          Run_loop fuel'
      end
  end.

(** [Run]: [Some err] when [Run] returned [err]; [None] when it is still
    in its accept loop after [fuel] iterations. *)
Definition Run (fuel : nat) (address : string) : M (option error) :=
  let errListen := net_Listen address in
  emit (EvListen address errListen) ;;
  match errListen with
  | Some e => ret (Some (fmt_Errorf "listener start: " e))
  | None =>
      log_Printf ("Listening on " +:+ address +:+ " (HTTPS)...") ;;
      Run_loop fuel ;;
      ret None
  end.

End Server.

(** ** Vocabulary of the properties *)

(** The three outcomes of one cycle of the traffic handler, as the
    supervisor tells them apart: [nil] keeps the loop going, [io.EOF] is the
    dedicated close signal, any other error is a hard error. *)
Inductive Outcome : Type :=
| KeepOpen
| CloseGraceful
| CloseError (err : error).

Definition outcome (r : option error) : Outcome :=
  match r with
  | None => KeepOpen
  | Some e => if decide (e = io_EOF) then CloseGraceful else CloseError e
  end.

(** The wire format of a response: status line, [Content-Length], [Date],
    empty line, body. *)
Definition response (code : Z) (reason : string) (n : Z) (date : string) (body : string) : string :=
  "HTTP/1.1 " +:+ fmt_d code +:+ " " +:+ reason +:+ CRLF
  +:+ "Content-Length: " +:+ fmt_d n +:+ CRLF
  +:+ "Date: " +:+ date +:+ CRLF
  +:+ CRLF
  +:+ body.

(** What a buffer holds: the first [buf_len] bytes of its array. *)
Definition contents (b : nat) (w : World) : bytes :=
  match buffers w !! b with
  | Some B => take (buf_len B) (array_of w (buf_array B))
  | None => []
  end.

(** Well-formed heaps: the pool holds existing buffers, and no buffer is
    longer than its array. *)
Definition wf (w : World) : Prop :=
  Forall (fun b => (b < length (buffers w))%nat) (bufferPool w)
  /\ Forall (fun B => (buf_len B <= length (array_of w (buf_array B)))%nat) (buffers w).

(** The part of the world that is not the heap. *)
Definition outside (w : World) : list nat * nat * nat * nat * nat * list Event :=
  (bufferPool w, ticks w, reads w, writes w, accepts w, trace w).

(** The events a computation added to the trace. *)
Definition emitted (w w' : World) : list Event :=
  drop (length (trace w)) (trace w').

Definition is_write (e : Event) : bool :=
  match e with EvWrite _ _ => true | _ => false end.

Definition is_pool_event (e : Event) : bool :=
  match e with EvGet _ | EvPut _ => true | _ => false end.

(** The skeleton of a supervisor's trace: its reads, the idle windows it
    sets (each deadline less the clock value it was computed from) and the
    close. *)
Inductive Mark : Type :=
| MRead
| MWindow (d : Duration)
| MClose.

Fixpoint skeleton (now : Time) (tr : list Event) : list Mark :=
  match tr with
  | [] => []
  | EvNow t :: tr' => skeleton t tr'
  | EvRead _ _ :: tr' => MRead :: skeleton now tr'
  | EvSetReadDeadline t :: tr' => MWindow (t - now) :: skeleton now tr'
  | EvClose :: tr' => MClose :: skeleton now tr'
  | _ :: tr' => skeleton now tr'
  end.

(** [n] cycles that each signal to continue: a read, then the idle window
    set anew. *)
Definition continued (n : nat) : list Mark :=
  concat (replicate n [MRead; MWindow (3 * time_Second)]).

(** An event with the result of a write forgotten. *)
Definition forget (e : Event) : Event :=
  match e with
  | EvWrite data _ => EvWrite data None
  | _ => e
  end.

(** Two worlds that differ at most in the results of the writes recorded in
    their traces. *)
Definition alike (w1 w2 : World) : Prop :=
  arrays w1 = arrays w2 /\ buffers w1 = buffers w2 /\ bufferPool w1 = bufferPool w2
  /\ ticks w1 = ticks w2 /\ reads w1 = reads w2 /\ writes w1 = writes w2
  /\ accepts w1 = accepts w2 /\ map forget (trace w1) = map forget (trace w2).

(** A computation that cannot tell two such worlds apart. *)
Definition respects {A} (m : M A) : Prop :=
  forall w1 w2, alike w1 w2 -> (m w1).1 = (m w2).1 /\ alike (m w1).2 (m w2).2.

(** The events of the iteration of the accept loop that makes the [n]-th
    call of [Accept]. *)
Definition accept_events {env : Environment} (n : nat) : list Event :=
  match accept_result n with
  | inl conn => [EvAccept None; EvGo (NewConnection conn)]
  | inr err => [EvAccept (Some err); EvLog ("failed to accept connection: " +:+ Error err)]
  end.

(** A connection whose writes have the results [wr]. *)
Definition with_writes (wr : nat -> option error) (conn : Connection) : Connection :=
  mkConnection (read_result conn) wr.

(** The value of the [Connection] header of a request carries [close]. *)
Definition connection_close (req : Request) : Prop :=
  strings_ToLower (Header_Get (Header req) "Connection") = "close".

(** What the peer of a connection has the cycle that makes the [n]-th read
    return: it is told from the result of that read, from the parse of its
    bytes and from the [Connection] header of the request. *)
Definition signal {env : Environment} (conn : Connection) (n : nat) : option error :=
  match read_result conn n with
  | (_, Some errRead) => if decide (errRead = io_EOF) then None else Some errRead
  | (data, None) =>
      match http_ReadRequest data with
      | inr _ => None
      | inl req =>
          if decide (strings_ToLower (Header_Get (Header req) "Connection") = "close")
          then Some io_EOF else None
      end
  end.

(** How many cycles in a row signal to continue, from the cycle that makes
    the [n]-th read on and among the next [fuel] cycles. *)
Fixpoint continues {env : Environment} (conn : Connection) (n fuel : nat) : nat :=
  match fuel with
  | O => O
  | S fuel' =>
      match signal conn n with
      | None => S (continues conn (S n) fuel')
      | Some _ => O
      end
  end.

(** The world in which the next cycle of a supervisor begins, after a cycle
    that ended in [w]: the clock read and the idle window set anew. *)
Definition reset {env : Environment} (w : World) : World :=
  record (EvSetReadDeadline (Time_Add (clock (ticks w)) (3 * time_Second)))
         (record (EvNow (clock (ticks w))) (set_ticks S w)).

(** The buffer that the next [Get] hands out, and the buffers then left at
    rest. *)
Definition next_buffer {env : Environment} (w : World) : nat :=
  match pool_choice w with
  | Some (b, _) => b
  | None => length (buffers w)
  end.

Definition pool_after_get {env : Environment} (w : World) : list nat :=
  match pool_choice w with
  | Some (_, rest) => rest
  | None => bufferPool w
  end.

(** The pool as a free list: [Get] hands out the buffer put back last, and
    has a new one made only when none is at rest. *)
Definition free_list (l : list nat) : option nat :=
  match l with
  | [] => None
  | _ :: _ => Some 0%nat
  end.

(** The first two statements of both response builders. *)
Definition acquire {env : Environment} : M nat :=
  buffer <- Pool_Get ;;
  Buffer_Reset buffer ;;
  ret buffer.

(** A call of one of the two response builders. *)
Inductive Build : Type :=
| Status (statusCode : Z)
| Body (statusCode : Z) (body : string).

Section Builders.
Context {env : Environment}.

Definition build (c : Build) : M Slice :=
  match c with
  | Status statusCode => SendStatus statusCode
  | Body statusCode body => SendBody statusCode body
  end.

(** The response a call is to produce when the clock shows [now]. *)
Definition payload (c : Build) (now : Time) : string :=
  match c with
  | Status statusCode =>
      response statusCode (http_StatusText statusCode) 0 (RFC1123 now) ""
  | Body statusCode body =>
      response statusCode (http_StatusText statusCode)
               (Z.of_nat (String.length body)) (RFC1123 now) body
  end.

(** The strings a call writes before and after it reads the clock. *)
Definition chunks_before (c : Build) : list string :=
  let code := match c with Status code | Body code _ => code end in
  [ "HTTP/1.1 " +:+ fmt_d code +:+ " " +:+ http_StatusText code +:+ CRLF;
    match c with
    | Status _ => "Content-Length: 0" +:+ CRLF
    | Body _ body => "Content-Length: " +:+ fmt_d (Z.of_nat (String.length body)) +:+ CRLF
    end ].

Definition chunks_after (c : Build) (now : Time) : list string :=
  ("Date: " +:+ RFC1123 now +:+ CRLF) :: CRLF ::
  match c with
  | Status _ => []
  | Body _ body => [body]
  end.

Fixpoint write_all (buffer : nat) (chunks : list string) : M unit :=
  match chunks with
  | [] => ret tt
  | s :: rest => Buffer_WriteString buffer s ;; write_all buffer rest
  end.

(** What a builder does with the buffer it has acquired. *)
Definition fill (c : Build) (buffer : nat) : M Slice :=
  write_all buffer (chunks_before c) ;;
  now <- time_Now ;;
  write_all buffer (chunks_after c now) ;;
  result <- Buffer_Bytes buffer ;;
  Pool_Put buffer ;;
  ret result.

End Builders.

Fixpoint flatten (chunks : list string) : bytes :=
  match chunks with
  | [] => []
  | s :: rest => (list_ascii_of_string s ++ flatten rest)%list
  end.

(** ** A sample environment *)

Definition two_digits (n : Z) : string :=
  fmt_d (n / 10 mod 10) +:+ fmt_d (n mod 10).

(** The RFC 1123 form of the instants of the first minute of the epoch, in
    UTC. *)
Definition sample_RFC1123 (t : Time) : string :=
  "Thu, 01 Jan 1970 00:00:" +:+ two_digits (t / time_Second mod 60) +:+ " UTC".

Definition sample_get : string :=
  "GET / HTTP/1.1" +:+ CRLF +:+ "Host: x" +:+ CRLF +:+ CRLF.

Definition sample_get_close : string :=
  "GET / HTTP/1.1" +:+ CRLF +:+ "Host: x" +:+ CRLF +:+ "Connection: CLOSE" +:+ CRLF +:+ CRLF.

(** A parser that knows two requests and rejects everything else. *)
Definition sample_ReadRequest (data : bytes) : Request + error :=
  let s := string_of_list_ascii data in
  if decide (s = sample_get) then
    inl (mkRequest "GET" "/" "HTTP/1.1" {[ "Host" := ["x"] ]})
  else if decide (s = sample_get_close) then
    inl (mkRequest "GET" "/" "HTTP/1.1" (<[ "Connection" := ["CLOSE"] ]> {[ "Host" := ["x"] ]}))
  else inr (errors_New "malformed HTTP request").

(** A peer that has closed its end: every read reports end-of-stream. *)
Definition peer_gone : Connection :=
  mkConnection (fun _ => ([], Some io_EOF)) (fun _ => None).

Definition sample_env : Environment := {|
  clock := fun n => Z.of_nat n * time_Second;
  pool_pick := free_list;
  RFC1123 := sample_RFC1123;
  http_ReadRequest := sample_ReadRequest;
  net_Listen := fun address =>
    if decide (address = "") then Some (errors_New "listen tcp: missing address") else None;
  accept_result := fun n =>
    if Nat.even n then inr (errors_New "tls: handshake failure")
    else inl peer_gone;
|}.

Definition peer_one_request : Connection :=
  mkConnection
    (fun n => match n with
              | O => (list_ascii_of_string sample_get, None)
              | _ => ([], Some os_ErrDeadlineExceeded)
              end)
    (fun _ => None).

Definition peer_close_request : Connection :=
  mkConnection (fun _ => (list_ascii_of_string sample_get_close, None)) (fun _ => None).

Definition peer_garbage : Connection :=
  mkConnection
    (fun n => match n with
              | O => (list_ascii_of_string "hello", None)
              | _ => ([], Some os_ErrDeadlineExceeded)
              end)
    (fun _ => None).

(** A peer to which no write succeeds. *)
Definition peer_broken_pipe : Connection :=
  mkConnection
    (fun n => match n with
              | O => (list_ascii_of_string "hello", None)
              | 1%nat => (list_ascii_of_string sample_get, None)
              | _ => ([], Some os_ErrDeadlineExceeded)
              end)
    (fun _ => Some (errors_New "write: broken pipe")).

(** ** Further vocabulary: what a supervisor does on its connection *)

(** The reads and writes of a trace, in order. *)
Inductive Io : Type :=
| IoRead
| IoWrite.

Fixpoint io_of (tr : list Event) : list Io :=
  match tr with
  | [] => []
  | EvRead _ _ :: tr' => IoRead :: io_of tr'
  | EvWrite _ _ :: tr' => IoWrite :: io_of tr'
  | _ :: tr' => io_of tr'
  end.

(** The reads and writes of one cycle: a read, and a write when the cycle
    answered. *)
Definition cycle_io (answered : bool) : list Io :=
  if answered then [IoRead; IoWrite] else [IoRead].

Definition is_close (e : Event) : bool :=
  match e with EvClose => true | _ => false end.

(** The events that act on a connection. *)
Definition on_connection (e : Event) : bool :=
  match e with
  | EvRead _ _ | EvWrite _ _ | EvSetReadDeadline _ | EvClose => true
  | _ => false
  end.

(** The events one cycle of the handler can add to the trace: a failed
    read; a read, the start of the logging goroutine and the write of the
    fallback; or a read,
    the events of [SendStatus] and the write of its bytes. *)
Definition cycle_shape (d : list Event) : Prop :=
  (exists data e, d = [EvRead data (Some e)])
  \/ (exists data msg wr,
        d = [EvRead data None; EvGoLog msg; EvWrite (list_ascii_of_string badRequest) wr])
  \/ (exists data b t sent wr,
        d = [EvRead data None; EvGet b; EvNow t; EvPut b; EvWrite sent wr]).

(** A cycle that signalled to continue, with the deadline set after it from
    the clock value [c.2]. *)
Definition continuing (c : list Event * Time) : list Event :=
  (c.1 ++ [EvNow c.2; EvSetReadDeadline (Time_Add c.2 (3 * time_Second))])%list.

(** The bytes of an event are one of the two responses of the handler. *)
Definition sends_a_response {env : Environment} (e : Event) : Prop :=
  match e with
  | EvWrite data _ =>
      data = list_ascii_of_string badRequest
      \/ exists t, data = list_ascii_of_string (payload (Status http_StatusOK) t)
  | _ => True
  end.

(** A peer that never sends anything: every read runs into the deadline. *)
Definition peer_silent : Connection :=
  mkConnection (fun _ => ([], Some os_ErrDeadlineExceeded)) (fun _ => None).

Definition is_log (e : Event) : bool :=
  match e with EvLog _ => true | _ => false end.

Definition is_go_log (e : Event) : bool :=
  match e with EvGoLog _ => true | _ => false end.

(** * Proofs *)

Lemma copy_at_fits (dst : bytes) pos (src : bytes) :
  (pos + length src <= length dst)%nat ->
  copy_at dst pos src = (take pos dst ++ src ++ drop (pos + length src) dst)%list.
Proof.
  intros H. unfold copy_at. rewrite (take_ge src) by lia. reflexivity.
Qed.

Lemma copy_at_length (dst : bytes) pos (src : bytes) :
  (pos + length src <= length dst)%nat ->
  length (copy_at dst pos src) = length dst.
Proof.
  intros H. rewrite copy_at_fits by done.
  rewrite !length_app, length_take, length_drop. lia.
Qed.

Lemma take_copy_at (dst : bytes) pos (src : bytes) :
  (pos + length src <= length dst)%nat ->
  take (pos + length src) (copy_at dst pos src) = (take pos dst ++ src)%list.
Proof.
  intros H. rewrite copy_at_fits by done.
  rewrite app_assoc. rewrite take_app_le.
  2:{ rewrite length_app, length_take. lia. }
  rewrite take_ge; [done|]. rewrite length_app, length_take. lia.
Qed.

Lemma wf_intro w :
  Forall (fun b => (b < length (buffers w))%nat) (bufferPool w) ->
  Forall (fun B => (buf_len B <= length (array_of w (buf_array B)))%nat) (buffers w) ->
  wf w.
Proof. by split. Qed.

Lemma wf_buffer w b B :
  wf w -> buffers w !! b = Some B ->
  (buf_len B <= length (array_of w (buf_array B)))%nat.
Proof.
  intros [_ Hb] Hl. rewrite Forall_lookup in Hb. exact (Hb _ _ Hl).
Qed.

(** Writing grows the contents of the buffer by the bytes written and touches
    nothing outside the heap. *)
Lemma Buffer_WriteString_spec b s w B :
  wf w -> buffers w !! b = Some B ->
  let w' := (Buffer_WriteString b s w).2 in
  wf w'
  /\ contents b w' = (contents b w ++ list_ascii_of_string s)%list
  /\ outside w' = outside w
  /\ length (buffers w') = length (buffers w).
Proof.
  intros Hwf HB. pose proof (wf_buffer _ _ _ Hwf HB) as Hlen.
  destruct Hwf as [Hpool Hbufs].
  unfold Buffer_WriteString. rewrite HB.
  set (data := list_ascii_of_string s).
  set (l := buf_len B) in *.
  set (old := array_of w (buf_array B)) in *.
  destruct (Nat.leb_spec (length data) (length old - l)) as [Hfit|Hgrow].
  - destruct (buf_array B) as [a|] eqn:Ha; simpl.
    + (* written in place *)
      assert (Hcell : default [] (<[a:=copy_at old l data]> (arrays w) !! a)
                      = copy_at old l data).
      { destruct (decide (a < length (arrays w))%nat) as [Hin|Hout].
        - by rewrite list_lookup_insert_eq.
        - rewrite list_insert_ge by lia.
          subst old. simpl in *. rewrite lookup_ge_None_2 by lia. simpl.
          simpl in Hfit. rewrite lookup_ge_None_2 in Hfit, Hlen by lia.
          simpl in *. assert (length data = 0%nat) as Hd by lia.
          destruct data; [|done]. unfold copy_at. by rewrite !take_nil, drop_nil. }
      split; [|split; [|split]].
      * apply wf_intro; simpl.
        { rewrite length_insert. exact Hpool. }
        apply Forall_insert.
        -- eapply Forall_impl; [exact Hbufs|]. intros B2 HB2. unfold array_of in *. simpl in *.
           destruct (buf_array B2) as [a2|]; simpl in *; [|done].
           destruct (decide (a2 = a)) as [->|Hne].
           ++ rewrite Hcell, copy_at_length by lia. exact HB2.
           ++ by rewrite list_lookup_insert_ne.
        -- simpl. rewrite Hcell, copy_at_length by lia. lia.
      * unfold contents; simpl. rewrite HB, Ha.
        rewrite list_lookup_insert_eq by (eapply lookup_lt_Some; exact HB).
        simpl. rewrite Hcell. fold old. by rewrite take_copy_at by lia.
      * reflexivity.
      * simpl. by rewrite length_insert.
    + (* nothing to write to a nil slice *)
      subst old; simpl in *. assert (length data = 0%nat) as Hd by lia.
      destruct data; [|done].
      split; [by split|]. split; [by rewrite app_nil_r|done].
  - (* a new array *)
    set (fresh := if bool_decide (buf_array B = None) && (length data <=? smallBufferSize)%nat
                  then replicate smallBufferSize zero_byte
                  else (take l old ++ replicate (Nat.max (l + length data) (2 * length old) - l) zero_byte)%list).
    assert (Hfresh : (l + length data <= length fresh)%nat /\ take l fresh = take l old).
    { subst fresh.
      destruct (bool_decide (buf_array B = None) && (length data <=? smallBufferSize)%nat) eqn:Hsmall.
      - apply andb_prop in Hsmall as [Hnil Hn].
        apply bool_decide_eq_true in Hnil. apply Nat.leb_le in Hn.
        subst old. rewrite Hnil in *. cbn [array_of length] in *.
        assert (Hl0 : l = 0%nat) by lia. rewrite Hl0, length_replicate. split; [lia|done].
      - rewrite length_app, length_take, length_replicate. split; [lia|].
        rewrite take_app_le by (rewrite length_take; lia).
        rewrite take_take. f_equal. lia. }
    destruct Hfresh as [Hroom Htake].
    simpl.
    assert (Hcell : default [] ((arrays w ++ [copy_at fresh l data])%list !! length (arrays w))
                    = copy_at fresh l data).
    { rewrite lookup_app_r by lia. by rewrite Nat.sub_diag. }
    split; [|split; [|split]].
    + apply wf_intro; simpl.
      { rewrite length_insert. exact Hpool. }
      apply Forall_insert.
      * eapply Forall_impl; [exact Hbufs|]. intros B2 HB2. unfold array_of in *. simpl in *.
        destruct (buf_array B2) as [a2|]; simpl in *; [|done].
        destruct (decide (a2 < length (arrays w))%nat) as [Hin|Hout].
        -- by rewrite lookup_app_l.
        -- rewrite lookup_ge_None_2 in HB2 by lia. simpl in HB2. lia.
      * simpl. rewrite Hcell, copy_at_length by lia. lia.
    + unfold contents; simpl. rewrite HB.
      rewrite list_lookup_insert_eq by (eapply lookup_lt_Some; exact HB).
      simpl. rewrite Hcell. fold old. fold l.
      rewrite take_copy_at by lia. by rewrite Htake.
    + reflexivity.
    + simpl. by rewrite length_insert.
Qed.

Lemma list_ascii_of_string_app (s1 s2 : string) :
  list_ascii_of_string (s1 +:+ s2) = (list_ascii_of_string s1 ++ list_ascii_of_string s2)%list.
Proof. induction s1 as [|c s1 IH]; simpl; [done|]. by rewrite IH. Qed.

Lemma flatten_app (xs ys : list string) :
  flatten (xs ++ ys) = (flatten xs ++ flatten ys)%list.
Proof. induction xs as [|x xs IH]; simpl; [done|]. by rewrite IH, app_assoc. Qed.

Lemma bind_assoc {A B C} (m : M A) (f : A -> M B) (g : B -> M C) w :
  bind (bind m f) g w = bind m (fun a => bind (f a) g) w.
Proof. unfold bind. by destruct (m w). Qed.

Lemma bind_ret_l {A B} (a : A) (k : A -> M B) w : bind (ret a) k w = k a w.
Proof. reflexivity. Qed.

Lemma bind_cong {A B} (m : M A) (k1 k2 : A -> M B) w :
  (forall a w', k1 a w' = k2 a w') -> bind m k1 w = bind m k2 w.
Proof. intros H. unfold bind. destruct (m w). apply H. Qed.

(** Brings both sides of an equation between computations to right-nested
    form, one statement at a time. *)
Ltac bind_norm :=
  repeat first [ rewrite bind_assoc | rewrite bind_ret_l ].
Ltac bind_steps :=
  repeat (bind_norm; try reflexivity; apply bind_cong; intros).

(** *** Frame lemmas: what the heap operations leave alone *)

Lemma Buffer_WriteString_outside b s w :
  outside (Buffer_WriteString b s w).2 = outside w.
Proof.
  unfold Buffer_WriteString.
  destruct (buffers w !! b) as [B|]; [|done].
  destruct (_ <=? _)%nat; [|done].
  by destruct (buf_array B).
Qed.

Lemma Buffer_Bytes_world b w : (Buffer_Bytes b w).2 = w.
Proof. unfold Buffer_Bytes. by destruct (buffers w !! b). Qed.

Section BuilderFacts.
Context {env : Environment}.

Lemma write_all_outside b chunks w :
  outside (write_all b chunks w).2 = outside w.
Proof.
  revert w. induction chunks as [|s rest IH]; intros w; [done|].
  simpl. unfold bind.
  destruct (Buffer_WriteString b s w) as [u w1] eqn:E.
  rewrite IH. by rewrite <- (Buffer_WriteString_outside b s w), E.
Qed.

Lemma write_all_spec b chunks w :
  wf w -> (b < length (buffers w))%nat ->
  let w' := (write_all b chunks w).2 in
  wf w'
  /\ contents b w' = (contents b w ++ flatten chunks)%list
  /\ length (buffers w') = length (buffers w).
Proof.
  revert w. induction chunks as [|s rest IH]; intros w Hwf Hb; simpl.
  - by rewrite app_nil_r.
  - unfold bind.
    destruct (lookup_lt_is_Some_2 _ _ Hb) as [B HB].
    destruct (Buffer_WriteString_spec b s w B Hwf HB) as (Hwf1 & Hc1 & _ & Hl1).
    destruct (Buffer_WriteString b s w) as [u w1]. simpl in *.
    destruct (IH w1 Hwf1 ltac:(lia)) as (Hwf2 & Hc2 & Hl2).
    split; [done|]. split; [|lia].
    by rewrite Hc2, Hc1, app_assoc.
Qed.

Lemma pool_choice_Some w b rest :
  pool_choice w = Some (b, rest) ->
  exists i, bufferPool w !! i = Some b /\ rest = delete i (bufferPool w).
Proof.
  unfold pool_choice. intros H.
  destruct (pool_pick (bufferPool w)) as [i|]; [|done].
  destruct (bufferPool w !! i) as [b'|] eqn:Hi; [|done].
  exists i. by simplify_eq.
Qed.

Lemma Pool_Get_spec w :
  wf w ->
  let w1 := (Pool_Get w).2 in
  (Pool_Get w).1 = next_buffer w
  /\ wf w1
  /\ (next_buffer w < length (buffers w1))%nat
  /\ outside w1 = (pool_after_get w, ticks w, reads w, writes w, accepts w,
                   (trace w ++ [EvGet (next_buffer w)])%list).
Proof.
  intros [Hpool Hbufs]. unfold Pool_Get, next_buffer, pool_after_get.
  destruct (pool_choice w) as [[b rest]|] eqn:Hc; cbn [fst snd].
  - destruct (pool_choice_Some w b rest Hc) as (i & Hi & ->).
    pose proof Hpool as Hall. rewrite Forall_lookup in Hall. specialize (Hall _ _ Hi).
    split; [done|]. split; [|split; [exact Hall|done]].
    apply wf_intro; [|exact Hbufs]. cbn. by apply Forall_delete.
  - split; [done|]. split; [|split; [|done]].
    + apply wf_intro; cbn.
      * eapply Forall_impl; [exact Hpool|]. intros b Hb. rewrite length_app. cbn in *. lia.
      * apply Forall_app; split; [exact Hbufs|].
        apply Forall_singleton. cbn. lia.
    + cbn. rewrite length_app. cbn. lia.
Qed.

Lemma Buffer_Reset_spec b w :
  wf w ->
  let w1 := (Buffer_Reset b w).2 in
  wf w1 /\ contents b w1 = [] /\ length (buffers w1) = length (buffers w).
Proof.
  intros [Hpool Hbufs]. simpl. split; [|split].
  - apply wf_intro; simpl.
    + by rewrite length_alter.
    + apply Forall_alter; [exact Hbufs|]. intros B _. simpl. lia.
  - unfold contents. simpl. rewrite list_lookup_alter_eq.
    by destruct (buffers w !! b).
  - simpl. by rewrite length_alter.
Qed.

Lemma acquire_spec w :
  wf w ->
  let w1 := (acquire w).2 in
  (acquire w).1 = next_buffer w
  /\ wf w1
  /\ (next_buffer w < length (buffers w1))%nat
  /\ contents (next_buffer w) w1 = []
  /\ outside w1 = (pool_after_get w, ticks w, reads w, writes w, accepts w,
                   (trace w ++ [EvGet (next_buffer w)])%list).
Proof.
  intros Hwf. unfold acquire, bind.
  destruct (Pool_Get_spec w Hwf) as (Hb & Hwf1 & Hlt & Hout).
  destruct (Pool_Get w) as [b w1]. simpl in *. subst b.
  destruct (Buffer_Reset_spec (next_buffer w) w1 Hwf1) as (Hwf2 & Hc & Hl).
  simpl in *. split; [done|]. split; [done|]. split; [lia|]. split; [done|].
  exact Hout.
Qed.

(** Both builders are: acquire, write, read the clock, write, take the
    bytes, release. *)
Lemma build_unfold c w :
  build c w =
  (buffer <- acquire ;;
   write_all buffer (chunks_before c) ;;
   now <- time_Now ;;
   write_all buffer (chunks_after c now) ;;
   result <- Buffer_Bytes buffer ;;
   Pool_Put buffer ;;
   ret result) w.
Proof.
  destruct c; unfold build, SendStatus, SendBody, acquire, chunks_before, chunks_after;
    cbn [write_all]; bind_steps.
Qed.

Lemma payload_flatten c now :
  flatten (chunks_before c ++ chunks_after c now) = list_ascii_of_string (payload c now).
Proof.
  destruct c; unfold payload, response; cbn [flatten chunks_before chunks_after app];
    rewrite ?list_ascii_of_string_app, ?app_nil_r, <- ?app_assoc; reflexivity.
Qed.

End BuilderFacts.

Lemma outside_inv w' p t r wr a tr :
  outside w' = (p, t, r, wr, a, tr) ->
  bufferPool w' = p /\ ticks w' = t /\ reads w' = r
  /\ writes w' = wr /\ accepts w' = a /\ trace w' = tr.
Proof. unfold outside. intros H. by simplify_eq. Qed.

Lemma view_Bytes b w :
  view (Buffer_Bytes b w).1 w = contents b w.
Proof.
  unfold Buffer_Bytes, contents, view.
  by destruct (buffers w !! b) as [B|].
Qed.

Section BuilderSpec.
Context {env : Environment}.

(** What a call of a response builder does to a well-formed world. *)
Lemma build_spec c w :
  wf w ->
  let b := next_buffer w in
  let t := clock (ticks w) in
  let sl := (build c w).1 in
  let w' := (build c w).2 in
  wf w'
  /\ view sl w' = list_ascii_of_string (payload c t)
  /\ (exists B, buffers w' !! b = Some B /\ sl = mkSlice (buf_array B) 0 (buf_len B))
  /\ outside w' = (b :: pool_after_get w, S (ticks w), reads w, writes w, accepts w,
                   (trace w ++ [EvGet b; EvNow t; EvPut b])%list).
Proof.
  intros Hwf. cbv zeta. rewrite build_unfold. unfold bind.
  destruct (acquire_spec w Hwf) as (Hb & Hwf1 & Hlt1 & Hc1 & Ho1).
  destruct (acquire w) as [b w1]. simpl in Hb, Hwf1, Hlt1, Hc1, Ho1. subst b.
  set (b := next_buffer w) in *.
  destruct (write_all_spec b (chunks_before c) w1 Hwf1 Hlt1) as (Hwf2 & Hc2 & Hl2).
  pose proof (write_all_outside b (chunks_before c) w1) as Ho2.
  destruct (write_all b (chunks_before c) w1) as [u2 w2]. cbn [fst snd] in Hwf2, Hc2, Hl2, Ho2.
  rewrite Ho1 in Ho2. apply outside_inv in Ho2 as Hf2. simpl in Hf2.
  destruct Hf2 as (Hp2 & Ht2 & Hr2 & Hw2 & Ha2 & Htr2).
  change (time_Now w2) with (clock (ticks w2), record (EvNow (clock (ticks w2))) (set_ticks S w2)).
  cbv beta iota. rewrite Ht2.
  set (t := clock (ticks w)).
  set (w3 := record (EvNow t) (set_ticks S w2)).
  assert (Hwf3 : wf w3) by exact Hwf2.
  assert (Hlt3 : (b < length (buffers w3))%nat) by (simpl; lia).
  destruct (write_all_spec b (chunks_after c t) w3 Hwf3 Hlt3) as (Hwf4 & Hc4 & Hl4).
  pose proof (write_all_outside b (chunks_after c t) w3) as Ho4.
  destruct (write_all b (chunks_after c t) w3) as [u4 w4]. cbn [fst snd] in Hwf4, Hc4, Hl4, Ho4.
  change (contents b w3) with (contents b w2) in Hc4.
  rewrite Hc2, Hc1, app_nil_l in Hc4.
  rewrite <- flatten_app, payload_flatten in Hc4.
  pose proof (view_Bytes b w4) as Hv. pose proof (Buffer_Bytes_world b w4) as Hw4.
  assert (Hsl : exists B, buffers w4 !! b = Some B
                     /\ (Buffer_Bytes b w4).1 = mkSlice (buf_array B) 0 (buf_len B)).
  { destruct (lookup_lt_is_Some_2 (buffers w4) b ltac:(simpl in *; lia)) as [B HB].
    exists B. split; [done|]. unfold Buffer_Bytes. by rewrite HB. }
  destruct (Buffer_Bytes b w4) as [sl w5]. simpl in Hv, Hw4, Hsl. subst w5.
  simpl. split; [|split; [|split]].
  - destruct Hwf4 as [Hpool4 Hbufs4]. apply wf_intro; simpl; [|done].
    apply Forall_cons. split; [simpl in *; lia|done].
  - change (view sl w4 = list_ascii_of_string (payload c t)). by rewrite Hv.
  - exact Hsl.
  - unfold outside at 2 in Ho4. simpl in Ho4. apply outside_inv in Ho4.
    destruct Ho4 as (Hp4 & Ht4 & Hr4 & Hw4' & Ha4 & Htr4).
    unfold outside. simpl.
    rewrite Hp4, Ht4, Hr4, Hw4', Ha4, Htr4, Hp2, Ht2, Hr2, Hw2, Ha2, Htr2.
    by rewrite <- !app_assoc.
Qed.

End BuilderSpec.

Lemma emitted_app w w' delta :
  trace w' = (trace w ++ delta)%list -> emitted w w' = delta.
Proof. intros H. unfold emitted. rewrite H. apply drop_app_length. Qed.

Lemma outside_trace w' p t r wr a tr :
  outside w' = (p, t, r, wr, a, tr) -> trace w' = tr.
Proof. intros H. by apply outside_inv in H as (_ & _ & _ & _ & _ & ?). Qed.

Section TrafficHandler.
Context {env : Environment}.

(** One cycle on a request that parses. *)
Lemma onTraffic_parsed_eq conn w data req :
  read_result conn (reads w) = (data, None) ->
  http_ReadRequest data = inl req ->
  onTraffic conn w =
    (let r := SendStatus http_StatusOK (record (EvRead data None) (set_reads S w)) in
     (if decide (strings_ToLower (Header_Get (Header req) "Connection") = "close")
      then Some io_EOF else None,
      record (EvWrite (view r.1 r.2) (write_result conn (writes r.2))) (set_writes S r.2))).
Proof.
  intros Hread Hparse.
  unfold onTraffic, bind, Conn_Read. rewrite Hread. cbn [fst snd]. rewrite Hparse.
  destruct (SendStatus http_StatusOK _) as [sl w2].
  unfold load, Conn_Write. cbv beta iota zeta. cbn [fst snd].
  by destruct (decide _).
Qed.

Lemma onTraffic_parsed conn w data req :
  wf w ->
  read_result conn (reads w) = (data, None) ->
  http_ReadRequest data = inl req ->
  let b := next_buffer w in
  let t := clock (ticks w) in
  let w' := (onTraffic conn w).2 in
  (onTraffic conn w).1
    = (if decide (strings_ToLower (Header_Get (Header req) "Connection") = "close")
       then Some io_EOF else None)
  /\ wf w'
  /\ outside w' =
     (b :: pool_after_get w, S (ticks w), S (reads w), S (writes w), accepts w,
      (trace w ++ [EvRead data None; EvGet b; EvNow t; EvPut b;
                   EvWrite (list_ascii_of_string (payload (Status http_StatusOK) t))
                           (write_result conn (writes w))])%list).
Proof.
  intros Hwf Hread Hparse. cbv zeta.
  rewrite (onTraffic_parsed_eq conn w data req Hread Hparse). cbv zeta. cbn [fst snd].
  set (w1 := record (EvRead data None) (set_reads S w)).
  assert (Hwf1 : wf w1) by exact Hwf.
  destruct (build_spec (Status http_StatusOK) w1 Hwf1) as (Hwf2 & Hview & _ & Hout).
  cbn [build] in Hwf2, Hview, Hout.
  destruct (SendStatus http_StatusOK w1) as [sl w2]. cbn [fst snd] in *.
  apply outside_inv in Hout as (Hp & Ht & Hr & Hw & Ha & Htr).
  split; [done|]. split; [exact Hwf2|].
  unfold outside. cbn [bufferPool ticks reads writes accepts trace record set_writes].
  rewrite Hp, Ht, Hr, Hw, Ha, Htr, Hview. subst w1. cbn.
  by rewrite <- !app_assoc.
Qed.

(** One cycle on bytes that do not parse. *)
Lemma onTraffic_malformed conn w data errParse :
  read_result conn (reads w) = (data, None) ->
  http_ReadRequest data = inr errParse ->
  onTraffic conn w =
    (None,
     record (EvWrite (list_ascii_of_string badRequest) (write_result conn (writes w)))
            (set_writes S
               (record (EvGoLog ("failed to parse HTTP request: " +:+ Error errParse))
                       (record (EvRead data None) (set_reads S w))))).
Proof.
  intros Hread Hparse.
  unfold onTraffic, bind, Conn_Read.
  rewrite Hread. cbn [fst snd]. by rewrite Hparse.
Qed.

(** One cycle whose read fails. *)
Lemma onTraffic_read_error conn w data e :
  read_result conn (reads w) = (data, Some e) ->
  onTraffic conn w =
    (if decide (e = io_EOF) then None else Some e,
     record (EvRead data (Some e)) (set_reads S w)).
Proof.
  intros Hread.
  unfold onTraffic, bind, Conn_Read.
  rewrite Hread. cbn [fst snd]. by destruct (decide _).
Qed.

End TrafficHandler.

(** *** Skeletons of traces *)

Lemma skeleton_app_now now tr t rest :
  skeleton now (tr ++ EvNow t :: rest) = (skeleton now tr ++ skeleton t rest)%list.
Proof.
  revert now. induction tr as [|e tr IH]; intros now; [done|].
  destruct e; simpl; rewrite ?IH; reflexivity.
Qed.

Lemma skeleton_app_close now tr :
  skeleton now (tr ++ [EvClose]) = (skeleton now tr ++ [MClose])%list.
Proof.
  revert now. induction tr as [|e tr IH]; intros now; [done|].
  destruct e; simpl; rewrite ?IH; reflexivity.
Qed.

Section Supervisor.
Context {env : Environment}.

Lemma acquire_outside w :
  outside (acquire w).2 = (pool_after_get w, ticks w, reads w, writes w, accepts w,
                           (trace w ++ [EvGet (next_buffer w)])%list)
  /\ (acquire w).1 = next_buffer w.
Proof.
  unfold acquire, bind, Pool_Get, next_buffer, pool_after_get, outside.
  by destruct (pool_choice w) as [[b rest]|].
Qed.

(** The events of a builder, whatever the heap. *)
Lemma build_outside c w :
  outside (build c w).2 =
    (next_buffer w :: pool_after_get w, S (ticks w), reads w, writes w, accepts w,
     (trace w ++ [EvGet (next_buffer w); EvNow (clock (ticks w)); EvPut (next_buffer w)])%list).
Proof.
  rewrite build_unfold. unfold bind.
  destruct (acquire_outside w) as [Ho1 Hb].
  destruct (acquire w) as [b w1]. cbn [fst snd] in Ho1, Hb. subst b.
  pose proof (write_all_outside (next_buffer w) (chunks_before c) w1) as Ho2.
  destruct (write_all (next_buffer w) (chunks_before c) w1) as [u2 w2]. cbn [fst snd] in Ho2.
  rewrite Ho1 in Ho2. apply outside_inv in Ho2 as (Hp2 & Ht2 & Hr2 & Hw2 & Ha2 & Htr2).
  change (time_Now w2) with (clock (ticks w2), record (EvNow (clock (ticks w2))) (set_ticks S w2)).
  cbv beta iota.
  set (w3 := record (EvNow (clock (ticks w2))) (set_ticks S w2)).
  pose proof (write_all_outside (next_buffer w) (chunks_after c (clock (ticks w2))) w3) as Ho4.
  destruct (write_all (next_buffer w) (chunks_after c (clock (ticks w2))) w3) as [u4 w4].
  cbn [fst snd] in Ho4.
  unfold outside at 2 in Ho4. cbn in Ho4.
  apply outside_inv in Ho4 as (Hp4 & Ht4 & Hr4 & Hw4 & Ha4 & Htr4).
  pose proof (Buffer_Bytes_world (next_buffer w) w4) as Hw5.
  destruct (Buffer_Bytes (next_buffer w) w4) as [sl w5]. cbn [snd] in Hw5. subst w5.
  unfold outside. cbn.
  rewrite Hp4, Ht4, Hr4, Hw4, Ha4, Htr4, Hp2, Ht2, Hr2, Hw2, Ha2, Htr2.
  by rewrite <- !app_assoc.
Qed.

(** One cycle adds one read to the trace, and neither a deadline nor a
    close. *)
Lemma onTraffic_skeleton conn w :
  exists delta,
    trace (onTraffic conn w).2 = (trace w ++ delta)%list
    /\ forall now, skeleton now delta = [MRead].
Proof.
  destruct (read_result conn (reads w)) as [data [e|]] eqn:Hread.
  - rewrite (onTraffic_read_error conn w data e Hread). by eexists.
  - destruct (http_ReadRequest data) as [req|errParse] eqn:Hparse.
    + rewrite (onTraffic_parsed_eq conn w data req Hread Hparse). cbv zeta. cbn [snd].
      pose proof (build_outside (Status http_StatusOK)
                    (record (EvRead data None) (set_reads S w))) as Ho.
      cbn [build] in Ho. apply outside_trace in Ho.
      destruct (SendStatus http_StatusOK _) as [sl w2]. cbn [fst snd] in *.
      cbn [trace record set_writes]. rewrite Ho. cbn [trace record set_reads].
      rewrite <- !app_assoc. by eexists.
    + rewrite (onTraffic_malformed conn w data errParse Hread Hparse). cbn.
      rewrite <- !app_assoc. by eexists.
Qed.

Lemma continued_S n :
  continued (S n) = MRead :: MWindow (3 * time_Second) :: continued n.
Proof. reflexivity. Qed.

Lemma handleConnection_loop_S fuel conn w :
  handleConnection_loop (S fuel) conn w =
    match onTraffic conn w with
    | (Some _, w1) => (true, w1)
    | (None, w1) =>
        handleConnection_loop fuel conn
          (record (EvSetReadDeadline (Time_Add (clock (ticks w1)) (3 * time_Second)))
                  (record (EvNow (clock (ticks w1))) (set_ticks S w1)))
    end.
Proof.
  cbn [handleConnection_loop]. unfold bind.
  by destruct (onTraffic conn w) as [[e|] w1].
Qed.

(** The loop of the supervisor: cycles that continue, each followed by a
    window of 3 seconds, then possibly one last cycle. *)
Lemma handleConnection_loop_skeleton fuel conn w :
  exists n delta,
    (n <= fuel)%nat
    /\ ((handleConnection_loop fuel conn w).1 = false -> n = fuel)
    /\ trace (handleConnection_loop fuel conn w).2 = (trace w ++ delta)%list
    /\ forall now, skeleton now delta =
         (continued n ++ if (handleConnection_loop fuel conn w).1 then [MRead] else [])%list.
Proof.
  revert w. induction fuel as [|fuel IH]; intros w.
  - exists 0%nat, []. cbn. by rewrite app_nil_r.
  - rewrite handleConnection_loop_S.
    destruct (onTraffic_skeleton conn w) as (d1 & Htr1 & Hsk1).
    destruct (onTraffic conn w) as [[e|] w1]; cbn [fst snd] in Htr1.
    + exists 0%nat, d1. cbn. split; [lia|]. split; [done|]. split; [done|]. exact Hsk1.
    + set (t := clock (ticks w1)).
      set (w2 := record (EvSetReadDeadline (Time_Add t (3 * time_Second)))
                   (record (EvNow t) (set_ticks S w1))).
      destruct (IH w2) as (n & d2 & Hn & Hfull & Htr2 & Hsk2).
      exists (S n), (d1 ++ EvNow t :: EvSetReadDeadline (Time_Add t (3 * time_Second)) :: d2)%list.
      split; [lia|]. split; [intros H; by rewrite (Hfull H)|]. split.
      * rewrite Htr2. subst w2. cbn [trace record set_ticks]. rewrite Htr1.
        rewrite <- !app_assoc. reflexivity.
      * intros now. rewrite skeleton_app_now, Hsk1. cbn [skeleton].
        rewrite Hsk2, continued_S. unfold Time_Add.
        replace (t + 3 * time_Second - t) with (3 * time_Second) by lia. reflexivity.
Qed.

Lemma handleConnection_eq fuel conn w :
  handleConnection fuel conn w =
    (let t := clock (ticks w) in
     let r := handleConnection_loop fuel conn
                (record (EvSetReadDeadline (Time_Add t (5 * time_Second)))
                        (record (EvNow t) (set_ticks S w))) in
     if r.1 then (true, record EvClose r.2) else (false, r.2)).
Proof.
  unfold handleConnection, bind.
  change (time_Now w) with (clock (ticks w), record (EvNow (clock (ticks w))) (set_ticks S w)).
  cbv beta iota zeta. unfold Conn_SetReadDeadline, emit at 1. cbv beta iota.
  by destruct (handleConnection_loop _ _ _) as [[|] w1].
Qed.

Lemma handleConnection_skeleton fuel conn w :
  exists n,
    (n <= fuel)%nat
    /\ ((handleConnection fuel conn w).1 = false -> n = fuel)
    /\ skeleton 0 (emitted w (handleConnection fuel conn w).2) =
       MWindow (5 * time_Second)
       :: (continued n ++ if (handleConnection fuel conn w).1 then [MRead; MClose] else [])%list.
Proof.
  rewrite handleConnection_eq. cbv zeta.
  set (t := clock (ticks w)).
  set (w1 := record (EvSetReadDeadline (Time_Add t (5 * time_Second)))
               (record (EvNow t) (set_ticks S w))).
  destruct (handleConnection_loop_skeleton fuel conn w1) as (n & d & Hn & Hfull & Htr & Hsk).
  exists n. split; [done|].
  destruct (handleConnection_loop fuel conn w1) as [[|] w2]; cbn [fst snd] in *.
  - split; [done|].
    rewrite (emitted_app w _ (EvNow t :: EvSetReadDeadline (Time_Add t (5 * time_Second))
                               :: (d ++ [EvClose]))%list).
    + cbn [skeleton]. rewrite skeleton_app_close, Hsk. unfold Time_Add.
      replace (t + 5 * time_Second - t) with (5 * time_Second) by lia.
      by rewrite <- app_assoc.
    + cbn [trace record]. rewrite Htr. subst w1. cbn [trace record set_ticks].
      by rewrite <- !app_assoc.
  - split; [done|].
    rewrite (emitted_app w _ (EvNow t :: EvSetReadDeadline (Time_Add t (5 * time_Second)) :: d)%list).
    + cbn [skeleton]. rewrite Hsk. unfold Time_Add.
      replace (t + 5 * time_Second - t) with (5 * time_Second) by lia. done.
    + rewrite Htr. subst w1. cbn [trace record set_ticks].
      by rewrite <- !app_assoc.
Qed.

End Supervisor.

(** *** Writes that fit are made in place *)

Lemma drop_copy_at (dst : bytes) pos (src : bytes) k :
  (pos + length src <= length dst)%nat -> (pos + length src <= k)%nat ->
  drop k (copy_at dst pos src) = drop k dst.
Proof.
  intros Hfit Hk. rewrite copy_at_fits by done.
  rewrite app_assoc, drop_app_ge; rewrite length_app, length_take; [|lia].
  rewrite drop_drop. f_equal. lia.
Qed.

Lemma Buffer_WriteString_in_place b s w a l arr :
  buffers w !! b = Some (mkBuffer (Some a) l) ->
  arrays w !! a = Some arr ->
  (l + length (list_ascii_of_string s) <= length arr)%nat ->
  let w' := (Buffer_WriteString b s w).2 in
  buffers w' !! b = Some (mkBuffer (Some a) (l + length (list_ascii_of_string s)))
  /\ arrays w' !! a = Some (copy_at arr l (list_ascii_of_string s)).
Proof.
  intros HB Ha Hfit. unfold Buffer_WriteString. rewrite HB. cbv zeta.
  cbn [buf_array buf_len array_of]. rewrite Ha. cbn [default from_option id].
  destruct (Nat.leb_spec (length (list_ascii_of_string s)) (length arr - l)) as [_|Hno]; [|lia].
  cbn. split.
  - apply list_lookup_insert_eq. by eapply lookup_lt_Some.
  - apply list_lookup_insert_eq. by eapply lookup_lt_Some.
Qed.

Section InPlace.
Context {env : Environment}.

Lemma write_all_in_place b chunks w a l arr :
  buffers w !! b = Some (mkBuffer (Some a) l) ->
  arrays w !! a = Some arr ->
  (l + length (flatten chunks) <= length arr)%nat ->
  let w' := (write_all b chunks w).2 in
  buffers w' !! b = Some (mkBuffer (Some a) (l + length (flatten chunks)))
  /\ arrays w' !! a =
     Some (take l arr ++ flatten chunks ++ drop (l + length (flatten chunks)) arr)%list.
Proof.
  revert w l arr. induction chunks as [|s rest IH]; intros w l arr HB Ha Hfit; cbn [write_all flatten].
  - cbn. rewrite Nat.add_0_r. split; [done|]. by rewrite take_drop.
  - cbn [flatten] in Hfit. rewrite length_app in Hfit.
    unfold bind.
    destruct (Buffer_WriteString_in_place b s w a l arr HB Ha ltac:(lia)) as [HB1 Ha1].
    destruct (Buffer_WriteString b s w) as [u w1]. cbn [snd] in HB1, Ha1.
    set (data := list_ascii_of_string s) in *.
    assert (Hlen1 : length (copy_at arr l data) = length arr) by (apply copy_at_length; lia).
    destruct (IH w1 _ _ HB1 Ha1 ltac:(lia)) as [HB2 Ha2].
    split.
    + rewrite HB2, length_app. do 2 f_equal. lia.
    + rewrite Ha2. f_equal. rewrite take_copy_at by lia.
      rewrite drop_copy_at by lia. rewrite length_app, <- !app_assoc.
      by rewrite Nat.add_assoc.
Qed.

(** Acquiring a buffer that was at rest keeps its array and empties it. *)
Lemma acquire_pooled w B :
  buffers w !! next_buffer w = Some B ->
  (acquire w).1 = next_buffer w
  /\ arrays (acquire w).2 = arrays w
  /\ ticks (acquire w).2 = ticks w
  /\ buffers (acquire w).2 !! next_buffer w = Some (mkBuffer (buf_array B) 0).
Proof.
  unfold acquire, bind, Pool_Get, next_buffer.
  destruct (pool_choice w) as [[b rest]|]; cbn; intros HB.
  - by rewrite list_lookup_alter_eq, HB.
  - by rewrite lookup_ge_None_2 in HB.
Qed.

(** A builder whose response fits in the array of the buffer it is handed
    overwrites that array from its start. *)
Lemma build_in_place c w a l arr :
  buffers w !! next_buffer w = Some (mkBuffer (Some a) l) ->
  arrays w !! a = Some arr ->
  let p := list_ascii_of_string (payload c (clock (ticks w))) in
  (length p <= length arr)%nat ->
  arrays (build c w).2 !! a = Some (p ++ drop (length p) arr)%list.
Proof.
  intros HB Ha p Hfit. subst p.
  rewrite <- payload_flatten in *. rewrite flatten_app, length_app in *.
  rewrite build_unfold. unfold bind.
  destruct (acquire_pooled w _ HB) as (Hb & Harr1 & Ht1 & HB1). cbn [buf_array] in HB1.
  destruct (acquire w) as [b w1]. cbn [fst snd] in Hb, Harr1, Ht1, HB1. subst b.
  set (b := next_buffer w) in *.
  assert (Ha1 : arrays w1 !! a = Some arr) by (by rewrite Harr1).
  destruct (write_all_in_place b (chunks_before c) w1 a 0 arr HB1 Ha1 ltac:(lia)) as [HB2 Ha2].
  pose proof (write_all_outside b (chunks_before c) w1) as Ho2.
  destruct (write_all b (chunks_before c) w1) as [u2 w2]. cbn [snd] in HB2, Ha2, Ho2.
  assert (Ht2 : ticks w2 = ticks w).
  { unfold outside in Ho2. simplify_eq. congruence. }
  change (time_Now w2) with (clock (ticks w2), record (EvNow (clock (ticks w2))) (set_ticks S w2)).
  cbv beta iota. rewrite Ht2.
  set (t := clock (ticks w)) in *.
  set (w3 := record (EvNow t) (set_ticks S w2)).
  set (arr2 := (take 0 arr ++ flatten (chunks_before c)
                ++ drop (0 + length (flatten (chunks_before c))) arr)%list) in *.
  assert (Hlen2 : length arr2 = length arr).
  { subst arr2. rewrite take_0, app_nil_l, length_app, length_drop. lia. }
  destruct (write_all_in_place b (chunks_after c t) w3 a _ arr2 HB2 Ha2 ltac:(lia)) as [HB4 Ha4].
  destruct (write_all b (chunks_after c t) w3) as [u4 w4]. cbn [snd] in HB4, Ha4.
  pose proof (Buffer_Bytes_world b w4) as Hw5.
  destruct (Buffer_Bytes b w4) as [sl w5]. cbn [snd] in Hw5. subst w5.
  unfold Pool_Put, ret. cbn [snd arrays record set_bufferPool].
  rewrite Ha4. f_equal. subst arr2.
  generalize dependent (flatten (chunks_before c)).
  generalize dependent (flatten (chunks_after c t)).
  intros q2 q1 Hfit HB2 Ha2 Hlen2 HB4 _.
  rewrite take_0, !app_nil_l. cbn [Nat.add].
  rewrite take_app_length, <- app_assoc. do 2 f_equal.
  rewrite drop_app_ge by lia. rewrite drop_drop. f_equal. lia.
Qed.

End InPlace.

(** *** Write results are never looked at *)

Lemma alike_refl w : alike w w.
Proof. by repeat split. Qed.

Lemma alike_record e1 e2 w1 w2 :
  forget e1 = forget e2 -> alike w1 w2 -> alike (record e1 w1) (record e2 w2).
Proof.
  intros He (Ha & Hb & Hp & Ht & Hr & Hw & Hac & Htr).
  repeat split; cbn; try done. by rewrite !map_app, Htr; cbn; rewrite He.
Qed.

Lemma alike_set_bufferPool f w1 w2 :
  alike w1 w2 -> alike (set_bufferPool f w1) (set_bufferPool f w2).
Proof.
  intros (Ha & Hb & Hp & Ht & Hr & Hw & Hac & Htr).
  repeat split; cbn; try done. by rewrite Hp.
Qed.

Lemma alike_set_buffers f w1 w2 :
  alike w1 w2 -> alike (set_buffers f w1) (set_buffers f w2).
Proof.
  intros (Ha & Hb & Hp & Ht & Hr & Hw & Hac & Htr).
  repeat split; cbn; try done. by rewrite Hb.
Qed.

Lemma alike_set_arrays f w1 w2 :
  alike w1 w2 -> alike (set_arrays f w1) (set_arrays f w2).
Proof.
  intros (Ha & Hb & Hp & Ht & Hr & Hw & Hac & Htr).
  repeat split; cbn; try done. by rewrite Ha.
Qed.

Lemma alike_set_ticks f w1 w2 :
  alike w1 w2 -> alike (set_ticks f w1) (set_ticks f w2).
Proof.
  intros (Ha & Hb & Hp & Ht & Hr & Hw & Hac & Htr).
  repeat split; cbn; try done. by rewrite Ht.
Qed.

Lemma alike_set_reads f w1 w2 :
  alike w1 w2 -> alike (set_reads f w1) (set_reads f w2).
Proof.
  intros (Ha & Hb & Hp & Ht & Hr & Hw & Hac & Htr).
  repeat split; cbn; try done. by rewrite Hr.
Qed.

Lemma alike_set_writes f w1 w2 :
  alike w1 w2 -> alike (set_writes f w1) (set_writes f w2).
Proof.
  intros (Ha & Hb & Hp & Ht & Hr & Hw & Hac & Htr).
  repeat split; cbn; try done. by rewrite Hw.
Qed.

Create HintDb alike.
#[local] Hint Resolve alike_record alike_set_bufferPool alike_set_buffers alike_set_arrays
  alike_set_ticks alike_set_reads alike_set_writes : alike.

Lemma respects_ret {A} (a : A) : respects (ret a).
Proof. by intros w1 w2 H. Qed.

Lemma respects_bind {A B} (m : M A) (k : A -> M B) :
  respects m -> (forall a, respects (k a)) -> respects (bind m k).
Proof.
  intros Hm Hk w1 w2 H. unfold bind.
  destruct (Hm w1 w2 H) as [Hr Hw].
  destruct (m w1) as [a1 w1'], (m w2) as [a2 w2']. cbn in *. subst a2.
  by apply Hk.
Qed.

Lemma respects_Pool_Put {env : Environment} b : respects (Pool_Put b).
Proof. intros w1 w2 H. unfold Pool_Put. cbn [fst snd]. split; [done|]. auto with alike. Qed.

Lemma respects_Buffer_Reset b : respects (Buffer_Reset b).
Proof. intros w1 w2 H. unfold Buffer_Reset. cbn [fst snd]. split; [done|]. auto with alike. Qed.

Lemma respects_Buffer_WriteString b s : respects (Buffer_WriteString b s).
Proof.
  intros w1 w2 H. pose proof H as (Ha & Hb & _). unfold Buffer_WriteString, array_of.
  rewrite Hb, Ha. destruct (buffers w2 !! b) as [B|]; [|done]. cbv zeta.
  destruct (_ <=? _)%nat.
  - destruct (buf_array B); [|done]. cbn [fst snd]. split; [done|]. auto with alike.
  - cbn [fst snd]. split; [done|]. auto with alike.
Qed.

Lemma respects_Buffer_Bytes b : respects (Buffer_Bytes b).
Proof.
  intros w1 w2 H. pose proof H as (Ha & Hb & _). unfold Buffer_Bytes.
  rewrite Hb. by destruct (buffers w2 !! b).
Qed.

Lemma view_alike sl w1 w2 : alike w1 w2 -> view sl w1 = view sl w2.
Proof. intros (Ha & _). unfold view, array_of. by rewrite Ha. Qed.

Section Respect.
Context {env : Environment}.

Lemma respects_Pool_Get : respects Pool_Get.
Proof.
  intros w1 w2 H. pose proof H as (Ha & Hb & Hp & _). unfold Pool_Get, pool_choice.
  rewrite Hp, Hb. destruct (pool_pick (bufferPool w2)) as [i|];
    [destruct (bufferPool w2 !! i)|]; cbn [fst snd]; (split; [done|]); auto with alike.
Qed.

Lemma respects_time_Now : respects time_Now.
Proof.
  intros w1 w2 H. pose proof H as (_ & _ & _ & Ht & _). unfold time_Now.
  cbv zeta. cbn [fst snd]. rewrite Ht. split; [done|]. auto with alike.
Qed.

Lemma respects_SendStatus statusCode : respects (SendStatus statusCode).
Proof.
  unfold SendStatus.
  repeat first
    [ apply respects_ret
    | apply respects_bind; [|intros ?]
    | apply respects_Pool_Get | apply respects_Pool_Put | apply respects_Buffer_Reset
    | apply respects_Buffer_WriteString | apply respects_Buffer_Bytes
    | apply respects_time_Now ].
Qed.

(** One cycle has the same outcome whatever the results of its writes. *)
Lemma onTraffic_alike conn wr w1 w2 :
  alike w1 w2 ->
  (onTraffic (with_writes wr conn) w1).1 = (onTraffic conn w2).1
  /\ alike (onTraffic (with_writes wr conn) w1).2 (onTraffic conn w2).2.
Proof.
  intros H. pose proof H as (Ha & Hb & Hp & Ht & Hr & Hw & Hac & Htr).
  destruct (read_result conn (reads w2)) as [data [e|]] eqn:Hread.
  - rewrite (onTraffic_read_error conn w2 data e Hread).
    rewrite (onTraffic_read_error (with_writes wr conn) w1 data e) by (by cbn; rewrite Hr).
    cbn [fst snd]. split; [done|]. auto with alike.
  - destruct (http_ReadRequest data) as [req|errParse] eqn:Hparse.
    + rewrite (onTraffic_parsed_eq conn w2 data req Hread Hparse).
      rewrite (onTraffic_parsed_eq (with_writes wr conn) w1 data req) by (by cbn; rewrite ?Hr).
      cbv zeta. cbn [fst snd]. split; [done|].
      destruct (respects_SendStatus http_StatusOK
                  (record (EvRead data None) (set_reads S w1))
                  (record (EvRead data None) (set_reads S w2))) as [Hsl Hal];
        [auto with alike|].
      rewrite Hsl, (view_alike _ _ _ Hal). auto with alike.
    + rewrite (onTraffic_malformed conn w2 data errParse Hread Hparse).
      rewrite (onTraffic_malformed (with_writes wr conn) w1 data errParse) by (by cbn; rewrite ?Hr).
      cbn [fst snd]. split; [done|]. auto 6 with alike.
Qed.

Lemma handleConnection_loop_alike fuel conn wr w1 w2 :
  alike w1 w2 ->
  (handleConnection_loop fuel (with_writes wr conn) w1).1 = (handleConnection_loop fuel conn w2).1
  /\ alike (handleConnection_loop fuel (with_writes wr conn) w1).2
           (handleConnection_loop fuel conn w2).2.
Proof.
  revert w1 w2. induction fuel as [|fuel IH]; intros w1 w2 H; [done|].
  rewrite !handleConnection_loop_S.
  destruct (onTraffic_alike conn wr w1 w2 H) as [Hr Hal].
  destruct (onTraffic (with_writes wr conn) w1) as [r1 w1'], (onTraffic conn w2) as [r2 w2'].
  cbn [fst snd] in Hr, Hal. subst r2. destruct r1 as [e|]; [done|].
  apply IH. pose proof Hal as (_ & _ & _ & Ht & _). rewrite Ht. auto with alike.
Qed.

End Respect.

Section AcceptLoop.
Context {env : Environment}.

Lemma Run_loop_S fuel w :
  Run_loop (S fuel) w =
    Run_loop fuel
      (mkWorld (arrays w) (buffers w) (bufferPool w) (ticks w) (reads w) (writes w)
               (S (accepts w)) (trace w ++ accept_events (accepts w))%list).
Proof.
  cbn [Run_loop]. unfold bind, Listener_Accept, accept_events.
  destruct (accept_result (accepts w)) as [conn|err]; cbv beta iota;
    f_equal; unfold record, set_accepts; cbn; by rewrite <- app_assoc.
Qed.

(** The accept loop goes through every iteration, whatever [Accept]
    returns. *)
Lemma Run_loop_spec fuel w :
  let w' := (Run_loop fuel w).2 in
  accepts w' = (accepts w + fuel)%nat
  /\ trace w' = (trace w ++ concat (map accept_events (seq (accepts w) fuel)))%list.
Proof.
  revert w. induction fuel as [|fuel IH]; intros w; cbv zeta.
  - cbn. by rewrite Nat.add_0_r, app_nil_r.
  - rewrite Run_loop_S. destruct (IH (mkWorld (arrays w) (buffers w) (bufferPool w) (ticks w)
      (reads w) (writes w) (S (accepts w)) (trace w ++ accept_events (accepts w))%list)) as [Hacc Htr].
    cbn [accepts trace] in Hacc, Htr. rewrite Hacc, Htr. split; [lia|].
    cbn [seq map concat]. by rewrite <- app_assoc.
Qed.

Lemma Run_eq fuel address w :
  Run fuel address w =
    match net_Listen address with
    | Some e => (Some (fmt_Errorf "listener start: " e), record (EvListen address (Some e)) w)
    | None =>
        (None, (Run_loop fuel (record (EvLog ("Listening on " +:+ address +:+ " (HTTPS)..."))
                                 (record (EvListen address None) w))).2)
    end.
Proof.
  unfold Run, bind, log_Printf, emit. cbv beta iota zeta.
  destruct (net_Listen address) as [e|]; [done|].
  by destruct (Run_loop _ _).
Qed.

Lemma accept_events_in fuel start i (e : Event) :
  (i < fuel)%nat -> e ∈ accept_events (start + i) ->
  e ∈ concat (map accept_events (seq start fuel)).
Proof.
  intros Hi He. apply list_elem_of_In, in_concat. exists (accept_events (start + i)).
  split; [|by apply list_elem_of_In].
  apply in_map, in_seq. lia.
Qed.

End AcceptLoop.

(** *** The signals of the cycles *)

Section Signals.
Context {env : Environment}.

(** What a cycle returns is told by the read it makes. *)
Lemma onTraffic_signal conn w : (onTraffic conn w).1 = signal conn (reads w).
Proof.
  unfold signal.
  destruct (read_result conn (reads w)) as [data [e|]] eqn:Hread.
  - rewrite (onTraffic_read_error conn w data e Hread). cbn [fst].
    by destruct (decide (e = io_EOF)).
  - destruct (http_ReadRequest data) as [req|errParse] eqn:Hparse.
    + by rewrite (onTraffic_parsed_eq conn w data req Hread Hparse).
    + by rewrite (onTraffic_malformed conn w data errParse Hread Hparse).
Qed.

(** One cycle: one read, one mark in the skeleton, no close. *)
Lemma onTraffic_marks conn w :
  exists delta,
    trace (onTraffic conn w).2 = (trace w ++ delta)%list
    /\ (forall now, skeleton now delta = [MRead])
    /\ List.filter is_close delta = []
    /\ reads (onTraffic conn w).2 = S (reads w).
Proof.
  destruct (read_result conn (reads w)) as [data [e|]] eqn:Hread.
  - rewrite (onTraffic_read_error conn w data e Hread). by eexists.
  - destruct (http_ReadRequest data) as [req|errParse] eqn:Hparse.
    + rewrite (onTraffic_parsed_eq conn w data req Hread Hparse). cbv zeta. cbn [snd].
      pose proof (build_outside (Status http_StatusOK)
                    (record (EvRead data None) (set_reads S w))) as Ho.
      cbn [build] in Ho. apply outside_inv in Ho as (_ & _ & Hr & _ & _ & Ho).
      destruct (SendStatus http_StatusOK _) as [sl w2]. cbn [fst snd] in *.
      cbn [trace reads record set_writes]. rewrite Ho, Hr. cbn [trace reads record set_reads].
      rewrite <- !app_assoc. by eexists.
    + rewrite (onTraffic_malformed conn w data errParse Hread Hparse). cbn.
      rewrite <- !app_assoc. by eexists.
Qed.



(** A cycle that does not signal to continue bounds the count. *)
Lemma continues_stops conn n k fuel :
  is_Some (signal conn (n + k)) -> (k < fuel)%nat -> (continues conn n fuel <= k)%nat.
Proof.
  revert n k. induction fuel as [|fuel IH]; intros n k Hk Hlt; [lia|].
  cbn [continues]. destruct (signal conn n) as [e|] eqn:Hs; [lia|].
  destruct k as [|k].
  - rewrite Nat.add_0_r, Hs in Hk. by destruct Hk.
  - rewrite <- Nat.add_succ_comm in Hk. specialize (IH (S n) k Hk). lia.
Qed.

(** The loop of the supervisor, told from the signals of its cycles: it
    runs the cycles that signal to continue, each followed by a window of
    3 seconds, and is left on the first cycle that does not. *)
Lemma handleConnection_loop_signals fuel conn w :
  (handleConnection_loop fuel conn w).1
    = bool_decide (continues conn (reads w) fuel < fuel)%nat
  /\ reads (handleConnection_loop fuel conn w).2
     = (reads w + continues conn (reads w) fuel
        + if bool_decide (continues conn (reads w) fuel < fuel)%nat then 1 else 0)%nat
  /\ exists delta,
       trace (handleConnection_loop fuel conn w).2 = (trace w ++ delta)%list
       /\ List.filter is_close delta = []
       /\ forall now, skeleton now delta =
            (continued (continues conn (reads w) fuel)
             ++ if bool_decide (continues conn (reads w) fuel < fuel)%nat
                then [MRead] else [])%list.
Proof.
  revert w. induction fuel as [|fuel IH]; intros w.
  - cbn [handleConnection_loop continues]. rewrite bool_decide_eq_false_2 by lia.
    split; [done|]. split; [cbn; lia|]. exists []. cbn. by rewrite app_nil_r.
  - rewrite handleConnection_loop_S. cbn [continues].
    pose proof (onTraffic_signal conn w) as Hsig.
    destruct (onTraffic_marks conn w) as (d1 & Htr1 & Hsk1 & Hcl1 & Hr1).
    destruct (onTraffic conn w) as [r w1]. cbn [fst snd] in *. subst r.
    destruct (signal conn (reads w)) as [e|].
    + rewrite bool_decide_eq_true_2 by lia. cbn [fst snd].
      split; [done|]. split; [lia|]. exists d1. by split.
    + set (t := clock (ticks w1)).
      set (w2 := record (EvSetReadDeadline (Time_Add t (3 * time_Second)))
                   (record (EvNow t) (set_ticks S w1))).
      assert (Hr2 : reads w2 = S (reads w)) by exact Hr1.
      destruct (IH w2) as (Hleft & Hreads & d2 & Htr2 & Hcl2 & Hsk2).
      rewrite Hr2 in Hleft, Hreads, Hsk2.
      set (n := continues conn (S (reads w)) fuel) in *.
      rewrite Hleft, Hreads.
      replace (bool_decide (S n < S fuel)%nat) with (bool_decide (n < fuel)%nat)
        by (apply bool_decide_ext; lia).
      split; [done|]. split; [lia|].
      exists (d1 ++ EvNow t :: EvSetReadDeadline (Time_Add t (3 * time_Second)) :: d2)%list.
      split; [|split].
      * rewrite Htr2. subst w2. cbn [trace record set_ticks]. rewrite Htr1.
        rewrite <- !app_assoc. reflexivity.
      * rewrite List.filter_app, Hcl1. cbn [List.filter is_close app]. exact Hcl2.
      * intros now. rewrite skeleton_app_now, Hsk1. cbn [skeleton].
        rewrite Hsk2, continued_S. unfold Time_Add.
        replace (t + 3 * time_Second - t) with (3 * time_Second) by lia. reflexivity.
Qed.

(** The supervisor, told from the signals of its cycles. *)
Lemma handleConnection_signals fuel conn w :
  (handleConnection fuel conn w).1
    = bool_decide (continues conn (reads w) fuel < fuel)%nat
  /\ reads (handleConnection fuel conn w).2
     = (reads w + continues conn (reads w) fuel
        + if bool_decide (continues conn (reads w) fuel < fuel)%nat then 1 else 0)%nat
  /\ List.filter is_close (emitted w (handleConnection fuel conn w).2)
     = (if bool_decide (continues conn (reads w) fuel < fuel)%nat then [EvClose] else [])
  /\ (if bool_decide (continues conn (reads w) fuel < fuel)%nat
      then last (emitted w (handleConnection fuel conn w).2) = Some EvClose
      else True)
  /\ skeleton 0 (emitted w (handleConnection fuel conn w).2) =
     MWindow (5 * time_Second)
     :: (continued (continues conn (reads w) fuel)
         ++ if bool_decide (continues conn (reads w) fuel < fuel)%nat
            then [MRead; MClose] else [])%list.
Proof.
  rewrite handleConnection_eq. cbv zeta.
  set (t := clock (ticks w)).
  set (w1 := record (EvSetReadDeadline (Time_Add t (5 * time_Second)))
               (record (EvNow t) (set_ticks S w))).
  destruct (handleConnection_loop_signals fuel conn w1)
    as (Hleft & Hreads & d & Htr & Hcl & Hsk).
  change (reads w1) with (reads w) in Hleft, Hreads, Hsk.
  set (n := continues conn (reads w) fuel) in *.
  destruct (handleConnection_loop fuel conn w1) as [left w2]. cbn [fst snd] in *.
  subst left. destruct (bool_decide (n < fuel)%nat).
  - rewrite (emitted_app w _ (EvNow t :: EvSetReadDeadline (Time_Add t (5 * time_Second))
                               :: (d ++ [EvClose]))%list).
    + split; [done|]. split; [exact Hreads|]. split; [|split].
      * cbn [List.filter is_close]. by rewrite List.filter_app, Hcl.
      * rewrite !app_comm_cons. apply last_snoc.
      * cbn [skeleton]. rewrite skeleton_app_close, Hsk. unfold Time_Add.
        replace (t + 5 * time_Second - t) with (5 * time_Second) by lia.
        by rewrite <- app_assoc.
    + cbn [snd trace record]. rewrite Htr. subst w1. cbn [trace record set_ticks].
      by rewrite <- !app_assoc.
  - rewrite (emitted_app w _ (EvNow t :: EvSetReadDeadline (Time_Add t (5 * time_Second)) :: d)%list).
    + split; [done|]. split; [exact Hreads|]. split; [|split; [done|]].
      * cbn [List.filter is_close]. exact Hcl.
      * cbn [skeleton]. rewrite Hsk. unfold Time_Add.
        replace (t + 5 * time_Second - t) with (5 * time_Second) by lia. done.
    + cbn [snd]. rewrite Htr. subst w1. cbn [trace record set_ticks].
      by rewrite <- !app_assoc.
Qed.

End Signals.

(** * The properties of the specification *)

Lemma wf_NewServer : wf NewServer.
Proof. split; constructor. Qed.

Lemma emitted_NewServer w : emitted NewServer w = trace w.
Proof. reflexivity. Qed.

(** ** Response builders and the pool *)

Lemma payload_nonempty {env : Environment} (c : Build) (t : Time) :
  list_ascii_of_string (payload c t) <> [].
Proof. by destruct c. Qed.

(** C9. For every status code, [SendStatus] produces exactly the bytes
    [HTTP/1.1 <code> <reason>\r\nContent-Length: 0\r\nDate: <RFC 1123 time>\r\n\r\n]
    and no body, where the reason is [http.StatusText] of the code (the
    empty string for a code that has no standard phrase) and the time is the
    one the clock shows during the call. *)
Theorem SendStatus_wire_format {env : Environment} (statusCode : Z) (w : World) :
  wf w ->
  view (SendStatus statusCode w).1 (SendStatus statusCode w).2 =
    list_ascii_of_string
      ("HTTP/1.1 " +:+ fmt_d statusCode +:+ " " +:+ http_StatusText statusCode +:+ CRLF
       +:+ "Content-Length: 0" +:+ CRLF
       +:+ "Date: " +:+ RFC1123 (clock (ticks w)) +:+ CRLF
       +:+ CRLF).
Proof.
  intros Hwf.
  destruct (build_spec (Status statusCode) w Hwf) as (_ & Hview & _).
  cbn [build] in Hview. rewrite Hview. unfold payload, response.
  rewrite !list_ascii_of_string_app. cbn [list_ascii_of_string]. by rewrite app_nil_r.
Qed.

Lemma SendStatus_wire_format_witness :
  wf NewServer
  /\ view (SendStatus (env := sample_env) 404 NewServer).1
          (SendStatus (env := sample_env) 404 NewServer).2 =
     list_ascii_of_string
       ("HTTP/1.1 404 Not Found" +:+ CRLF +:+ "Content-Length: 0" +:+ CRLF
        +:+ "Date: Thu, 01 Jan 1970 00:00:00 UTC" +:+ CRLF +:+ CRLF).
Proof.
  split; [exact wf_NewServer|].
  exact (SendStatus_wire_format (env := sample_env) 404 NewServer wf_NewServer).
Defined.

(** C7. A response builder is: acquire a buffer, then fill it. The buffer
    it acquires is empty when the filling starts, whatever it held when it
    lay in the pool, so the response holds nothing of an earlier one; and
    the call releases that buffer exactly once: its pool events are one
    [Get] and one [Put] of the same buffer, after which the pool holds it
    again. The builders have no other exit than their return. *)
Theorem pooled_buffer_discipline {env : Environment} (c : Build) (w : World) :
  wf w ->
  let b := next_buffer w in
  build c w = (buffer <- acquire ;; fill c buffer) w
  /\ (acquire w).1 = b
  /\ contents b (acquire w).2 = []
  /\ List.filter is_pool_event (emitted w (build c w).2) = [EvGet b; EvPut b]
  /\ bufferPool (build c w).2 = b :: pool_after_get w
  /\ view (build c w).1 (build c w).2 = list_ascii_of_string (payload c (clock (ticks w))).
Proof.
  intros Hwf b.
  destruct (acquire_spec w Hwf) as (Hb & _ & _ & Hempty & _).
  destruct (build_spec c w Hwf) as (_ & Hview & _ & Hout).
  apply outside_inv in Hout as (Hp & _ & _ & _ & _ & Htr).
  split; [exact (build_unfold c w)|].
  split; [exact Hb|]. split; [exact Hempty|].
  split; [by rewrite (emitted_app _ _ _ Htr)|].
  split; [exact Hp|exact Hview].
Qed.

(** A server that has already sent one response: its pool holds a buffer
    with that response still in it. *)
Lemma pooled_buffer_discipline_witness :
  let w := (build (env := sample_env) (Status 404) NewServer).2 in
  wf w
  /\ contents 0 w <> []
  /\ contents 0 (acquire (env := sample_env) w).2 = []
  /\ List.filter is_pool_event (emitted w (build (env := sample_env) (Body 200 "hi") w).2)
     = [EvGet 0%nat; EvPut 0%nat].
Proof.
  assert (Hwf : wf (build (env := sample_env) (Status 404) NewServer).2)
    by apply (build_spec (env := sample_env) (Status 404) NewServer wf_NewServer).
  cbv zeta. split; [exact Hwf|]. split; [by vm_compute|].
  destruct (pooled_buffer_discipline (env := sample_env) (Body 200 "hi") _ Hwf)
    as (_ & _ & Hempty & Hev & _).
  split; [exact Hempty|exact Hev].
Defined.

(** C3. When a builder returns, the buffer behind the slice it returns is
    back in the pool: the release is the last thing the call did. With the
    pool a free list, the next call of a builder is handed that same
    buffer, and when its response is no longer than the first one it is
    written over the bytes that the first slice still shows: through the
    first slice one then reads the second response, followed by what is
    left of the first. *)
Theorem released_buffer_is_reused {env : Environment} (first second : Build) (w : World) :
  wf w ->
  (forall l, pool_pick l = free_list l) ->
  let r1 := build first w in
  let r2 := build second r1.2 in
  let p1 := list_ascii_of_string (payload first (clock (ticks w))) in
  let p2 := list_ascii_of_string (payload second (clock (S (ticks w)))) in
  let b := next_buffer w in
  (bufferPool r1.2 = b :: pool_after_get w
   /\ last (trace r1.2) = Some (EvPut b)
   /\ exists B, buffers r1.2 !! b = Some B /\ sl_array r1.1 = buf_array B)
  /\ head (emitted r1.2 r2.2) = Some (EvGet b)
  /\ view r1.1 r1.2 = p1
  /\ ((length p2 <= length p1)%nat ->
      view r1.1 r2.2 = (p2 ++ drop (length p2) p1)%list).
Proof.
  intros Hwf Hlifo. cbv zeta.
  destruct (build_spec first w Hwf) as (Hwf1 & Hview & (B & HB & Hsl) & Hout).
  destruct (build first w) as [sl w1]. cbn [fst snd] in *.
  apply outside_inv in Hout as (Hp & Ht & _ & _ & _ & Htr).
  pose proof (build_outside second w1) as Hout2. apply outside_trace in Hout2.
  assert (Hnext : next_buffer w1 = next_buffer w).
  { unfold next_buffer at 1, pool_choice. by rewrite Hlifo, Hp. }
  rewrite Hnext, Ht in Hout2.
  split; [|split; [|split]].
  - split; [done|]. split; [|by exists B; rewrite Hsl].
    by rewrite Htr, last_app.
  - by erewrite emitted_app by exact Hout2.
  - exact Hview.
  - intros Hfit.
    pose proof (wf_buffer _ _ _ Hwf1 HB) as Hlen.
    pose proof (payload_nonempty first (clock (ticks w))) as Hne.
    rewrite <- Hview in Hne, Hfit |- *. rewrite <- Ht in Hfit |- *.
    subst sl. unfold view in *. cbn [sl_array sl_off sl_len] in *.
    rewrite drop_0 in *.
    destruct B as [[a|] l]; cbn [buf_array buf_len array_of] in *; [|by rewrite take_nil in Hne].
    destruct (arrays w1 !! a) as [arr|] eqn:Ha; cbn [default from_option id] in *;
      [|by rewrite take_nil in Hne].
    rewrite length_take in Hfit. rewrite <- Hnext in HB.
    rewrite (build_in_place second w1 a l arr HB Ha) by (cbv zeta; lia).
    cbn [default from_option id]. rewrite drop_0.
    rewrite take_app_ge by lia. f_equal.
    rewrite take_drop_commute. do 2 f_equal. lia.
Qed.

(** After [SendStatus(404)] and then [SendStatus(200)], the slice returned
    by the first call shows the second response and the tail of the first. *)
Lemma released_buffer_is_reused_witness :
  let r1 := build (env := sample_env) (Status 404) NewServer in
  let r2 := build (env := sample_env) (Status 200) r1.2 in
  wf NewServer
  /\ view r1.1 r1.2 =
     list_ascii_of_string
       ("HTTP/1.1 404 Not Found" +:+ CRLF +:+ "Content-Length: 0" +:+ CRLF
        +:+ "Date: Thu, 01 Jan 1970 00:00:00 UTC" +:+ CRLF +:+ CRLF)
  /\ view r1.1 r2.2 =
     list_ascii_of_string
       ("HTTP/1.1 200 OK" +:+ CRLF +:+ "Content-Length: 0" +:+ CRLF
        +:+ "Date: Thu, 01 Jan 1970 00:00:01 UTC" +:+ CRLF +:+ CRLF
        +:+ "UTC" +:+ CRLF +:+ CRLF).
Proof.
  cbv zeta. split; [exact wf_NewServer|].
  destruct (released_buffer_is_reused (env := sample_env) (Status 404) (Status 200)
              NewServer wf_NewServer (fun l => eq_refl)) as (_ & _ & H1 & H2).
  split; [exact H1|].
  rewrite H2; [reflexivity|]. vm_compute. lia.
Defined.

(** ** The traffic handler *)

(** C4. When the bytes read parse as a request whose [Connection] header is
    not [close], one cycle of the handler makes exactly one write, of a 200
    response with [Content-Length: 0] and the date of the call, and returns
    [KeepOpen]. *)
Theorem valid_request_keeps_open {env : Environment}
    (conn : Connection) (w : World) (data : bytes) (req : Request) :
  wf w ->
  read_result conn (reads w) = (data, None) ->
  http_ReadRequest data = inl req ->
  ~ connection_close req ->
  outcome (onTraffic conn w).1 = KeepOpen
  /\ List.filter is_write (emitted w (onTraffic conn w).2) =
     [EvWrite
        (list_ascii_of_string
           ("HTTP/1.1 200 OK" +:+ CRLF
            +:+ "Content-Length: 0" +:+ CRLF
            +:+ "Date: " +:+ RFC1123 (clock (ticks w)) +:+ CRLF
            +:+ CRLF))
        (write_result conn (writes w))].
Proof.
  intros Hwf Hread Hparse Hopen.
  destruct (onTraffic_parsed conn w data req Hwf Hread Hparse) as (Hr & _ & Hout).
  apply outside_trace in Hout. rewrite Hr, (emitted_app _ _ _ Hout).
  unfold connection_close in Hopen. destruct (decide _) as [Hc|_]; [done|].
  split; [done|]. cbn [List.filter is_write].
  reflexivity.
Qed.

Lemma valid_request_keeps_open_witness :
  outcome (onTraffic (env := sample_env) peer_one_request NewServer).1 = KeepOpen
  /\ List.filter is_write
       (emitted NewServer (onTraffic (env := sample_env) peer_one_request NewServer).2) =
     [EvWrite
        (list_ascii_of_string
           ("HTTP/1.1 200 OK" +:+ CRLF +:+ "Content-Length: 0" +:+ CRLF
            +:+ "Date: " +:+ "Thu, 01 Jan 1970 00:00:00 UTC" +:+ CRLF +:+ CRLF))
        None].
Proof.
  assert (Hparse : http_ReadRequest (Environment := sample_env) (list_ascii_of_string sample_get)
                   = inl (mkRequest "GET" "/" "HTTP/1.1" {[ "Host" := ["x"] ]}))
    by (vm_compute; reflexivity).
  assert (Hopen : ~ connection_close (mkRequest "GET" "/" "HTTP/1.1" {[ "Host" := ["x"] ]}))
    by (unfold connection_close; vm_compute; discriminate).
  exact (valid_request_keeps_open (env := sample_env) peer_one_request NewServer
           (list_ascii_of_string sample_get)
           (mkRequest "GET" "/" "HTTP/1.1" {[ "Host" := ["x"] ]})
           wf_NewServer eq_refl Hparse Hopen).
Defined.

(** C5. When the bytes read parse as a request whose [Connection] header is
    [close] in any letter case, one cycle of the handler writes the 200
    response and then returns the close signal [CloseGraceful]; the
    supervisor leaves its loop on it, without another read, and closes the
    connection. A supervisor that starts with this request sets the window,
    reads, writes the response and closes, in this order and nothing more;
    a supervisor that is [k] reads away from this request when it starts
    has returned after at most [k+1] cycles, the close being its last
    action and its only close, and has not read past the request. *)
Theorem connection_close_closes {env : Environment}
    (conn : Connection) (w : World) (data : bytes) (req : Request) (fuel : nat) :
  wf w ->
  read_result conn (reads w) = (data, None) ->
  http_ReadRequest data = inl req ->
  connection_close req ->
  outcome (onTraffic conn w).1 = CloseGraceful
  /\ List.filter is_write (emitted w (onTraffic conn w).2) =
     [EvWrite
        (list_ascii_of_string
           ("HTTP/1.1 200 OK" +:+ CRLF
            +:+ "Content-Length: 0" +:+ CRLF
            +:+ "Date: " +:+ RFC1123 (clock (ticks w)) +:+ CRLF
            +:+ CRLF))
        (write_result conn (writes w))]
  /\ last (emitted w (onTraffic conn w).2) =
     Some (EvWrite
             (list_ascii_of_string
                ("HTTP/1.1 200 OK" +:+ CRLF
                 +:+ "Content-Length: 0" +:+ CRLF
                 +:+ "Date: " +:+ RFC1123 (clock (ticks w)) +:+ CRLF
                 +:+ CRLF))
             (write_result conn (writes w)))
  /\ handleConnection_loop (S fuel) conn w = (true, (onTraffic conn w).2)
  /\ reads (onTraffic conn w).2 = S (reads w)
  /\ (handleConnection (S fuel) conn w).1 = true
  /\ emitted w (handleConnection (S fuel) conn w).2 =
     [EvNow (clock (ticks w));
      EvSetReadDeadline (Time_Add (clock (ticks w)) (5 * time_Second));
      EvRead data None;
      EvGet (next_buffer w);
      EvNow (clock (S (ticks w)));
      EvPut (next_buffer w);
      EvWrite
        (list_ascii_of_string
           ("HTTP/1.1 200 OK" +:+ CRLF
            +:+ "Content-Length: 0" +:+ CRLF
            +:+ "Date: " +:+ RFC1123 (clock (S (ticks w))) +:+ CRLF
            +:+ CRLF))
        (write_result conn (writes w));
      EvClose]
  /\ forall (w0 : World) (k fuel0 : nat),
       (reads w0 + k)%nat = reads w ->
       (k < fuel0)%nat ->
       (handleConnection fuel0 conn w0).1 = true
       /\ last (emitted w0 (handleConnection fuel0 conn w0).2) = Some EvClose
       /\ List.filter is_close (emitted w0 (handleConnection fuel0 conn w0).2) = [EvClose]
       /\ (reads (handleConnection fuel0 conn w0).2 <= S (reads w))%nat.
Proof.
  intros Hwf Hread Hparse Hclose.
  assert (Hcycle :
    outcome (onTraffic conn w).1 = CloseGraceful
    /\ List.filter is_write (emitted w (onTraffic conn w).2) =
       [EvWrite
          (list_ascii_of_string
             ("HTTP/1.1 200 OK" +:+ CRLF
              +:+ "Content-Length: 0" +:+ CRLF
              +:+ "Date: " +:+ RFC1123 (clock (ticks w)) +:+ CRLF
              +:+ CRLF))
          (write_result conn (writes w))]
    /\ last (emitted w (onTraffic conn w).2) =
       Some (EvWrite
               (list_ascii_of_string
                  ("HTTP/1.1 200 OK" +:+ CRLF
                   +:+ "Content-Length: 0" +:+ CRLF
                   +:+ "Date: " +:+ RFC1123 (clock (ticks w)) +:+ CRLF
                   +:+ CRLF))
               (write_result conn (writes w)))
    /\ handleConnection_loop (S fuel) conn w = (true, (onTraffic conn w).2)
    /\ reads (onTraffic conn w).2 = S (reads w)).
  { destruct (onTraffic_parsed conn w data req Hwf Hread Hparse) as (Hr & _ & Hout).
    apply outside_inv in Hout as (_ & _ & Hreads & _ & _ & Htr).
    unfold connection_close in Hclose.
    rewrite handleConnection_loop_S.
    rewrite (emitted_app _ _ _ Htr).
    destruct (decide _) as [_|Hc]; [|done].
    destruct (onTraffic conn w) as [r w1]. cbn [fst snd] in *. subst r.
    split; [done|]. split; [reflexivity|]. split; [reflexivity|done]. }
  destruct Hcycle as (H1 & H2 & H3 & H4 & H5).
  split; [exact H1|]. split; [exact H2|]. split; [exact H3|].
  split; [exact H4|]. split; [exact H5|].
  assert (Hsig : signal conn (reads w) = Some io_EOF).
  { unfold signal. rewrite Hread, Hparse. unfold connection_close in Hclose.
    by destruct (decide _). }
  assert (Hgen : forall (w0 : World) (k fuel0 : nat),
       (reads w0 + k)%nat = reads w ->
       (k < fuel0)%nat ->
       (handleConnection fuel0 conn w0).1 = true
       /\ last (emitted w0 (handleConnection fuel0 conn w0).2) = Some EvClose
       /\ List.filter is_close (emitted w0 (handleConnection fuel0 conn w0).2) = [EvClose]
       /\ (reads (handleConnection fuel0 conn w0).2 <= S (reads w))%nat).
  { intros w0 k fuel0 Hk Hlt.
    assert (Hstop : (continues conn (reads w0) fuel0 <= k)%nat).
    { apply continues_stops; [|exact Hlt]. rewrite Hk, Hsig. by eexists. }
    destruct (handleConnection_signals fuel0 conn w0) as (Hleft & Hreads & Hcl & Hlast & _).
    rewrite bool_decide_eq_true_2 in Hleft, Hreads, Hcl, Hlast by lia.
    split; [exact Hleft|]. split; [exact Hlast|]. split; [exact Hcl|]. lia. }
  split; [|split; [|exact Hgen]].
  - apply (Hgen w 0%nat (S fuel)); lia.
  - rewrite handleConnection_eq. cbv zeta.
    set (t := clock (ticks w)).
    set (w1 := record (EvSetReadDeadline (Time_Add t (5 * time_Second)))
                 (record (EvNow t) (set_ticks S w))).
    assert (Hwf1 : wf w1) by exact Hwf.
    assert (Hread1 : read_result conn (reads w1) = (data, None)) by exact Hread.
    destruct (onTraffic_parsed conn w1 data req Hwf1 Hread1 Hparse) as (Hr & _ & Hout).
    apply outside_trace in Hout.
    rewrite handleConnection_loop_S.
    unfold connection_close in Hclose.
    destruct (decide _) as [_|Hc]; [|done].
    destruct (onTraffic conn w1) as [r w2]. cbn [fst snd] in *. subst r.
    cbn [fst snd]. apply emitted_app.
    cbn [trace record]. rewrite Hout. subst w1. cbn [trace record set_ticks].
    rewrite <- !app_assoc. reflexivity.
Qed.

Lemma connection_close_closes_witness :
  outcome (onTraffic (env := sample_env) peer_close_request NewServer).1 = CloseGraceful
  /\ (handleConnection_loop (env := sample_env) 3 peer_close_request NewServer).1 = true
  /\ reads (onTraffic (env := sample_env) peer_close_request NewServer).2 = 1%nat
  /\ (handleConnection (env := sample_env) 3 peer_close_request NewServer).1 = true
  /\ last (emitted NewServer
             (handleConnection (env := sample_env) 3 peer_close_request NewServer).2)
     = Some EvClose
  /\ List.filter is_close
       (emitted NewServer
          (handleConnection (env := sample_env) 3 peer_close_request NewServer).2)
     = [EvClose].
Proof.
  assert (Hparse : http_ReadRequest (Environment := sample_env)
                     (list_ascii_of_string sample_get_close)
                   = inl (mkRequest "GET" "/" "HTTP/1.1"
                            (<[ "Connection" := ["CLOSE"] ]> {[ "Host" := ["x"] ]})))
    by (vm_compute; reflexivity).
  assert (Hclose : connection_close (mkRequest "GET" "/" "HTTP/1.1"
                     (<[ "Connection" := ["CLOSE"] ]> {[ "Host" := ["x"] ]})))
    by (unfold connection_close; vm_compute; reflexivity).
  pose proof (connection_close_closes (env := sample_env) peer_close_request NewServer
                (list_ascii_of_string sample_get_close)
                (mkRequest "GET" "/" "HTTP/1.1"
                   (<[ "Connection" := ["CLOSE"] ]> {[ "Host" := ["x"] ]}))
                2 wf_NewServer eq_refl Hparse Hclose)
    as (H1 & _ & _ & Hloop & Hreads & _ & _ & Hgen).
  destruct (Hgen NewServer 0%nat 3%nat eq_refl (Nat.lt_0_succ 2)) as (Hl & Hlast & Hcl & _).
  split; [exact H1|]. split; [rewrite Hloop; reflexivity|]. split; [exact Hreads|].
  split; [exact Hl|]. split; [exact Hlast|exact Hcl].
Defined.



(** ** The supervisor *)

Lemma handleConnection_loop_EOF {env : Environment} fuel conn w :
  (forall n, (read_result conn n).2 = Some io_EOF) ->
  (handleConnection_loop fuel conn w).1 = false.
Proof.
  intros Hgone. revert w. induction fuel as [|fuel IH]; intros w; [done|].
  rewrite handleConnection_loop_S.
  destruct (read_result conn (reads w)) as [data oe] eqn:Hread.
  pose proof (Hgone (reads w)) as Hoe. rewrite Hread in Hoe. cbn in Hoe. subst oe.
  rewrite (onTraffic_read_error conn w data io_EOF Hread).
  destruct (decide (io_EOF = io_EOF)); [|done]. apply IH.
Qed.

(** C1 (the code departs from it). On a connection whose reads report
    end-of-stream, a cycle of the handler returns [nil], which the
    supervisor takes as [KeepOpen]: it sets the deadline anew and reads
    again. With a peer that is gone for good the loop never ends and the
    connection is never closed: after any number of cycles the supervisor is
    still in its loop, having set a window after every read. *)
Theorem eof_keeps_the_loop_going {env : Environment} (fuel : nat) :
  outcome (onTraffic peer_gone NewServer).1 = KeepOpen
  /\ (handleConnection fuel peer_gone NewServer).1 = false
  /\ skeleton 0 (trace (handleConnection fuel peer_gone NewServer).2)
     = MWindow (5 * time_Second) :: continued fuel.
Proof.
  assert (Hleft : (handleConnection fuel peer_gone NewServer).1 = false).
  { rewrite handleConnection_eq. cbv zeta.
    rewrite (surjective_pairing (handleConnection_loop _ _ _)).
    rewrite handleConnection_loop_EOF by done. done. }
  split; [|split; [exact Hleft|]].
  - by rewrite (onTraffic_read_error peer_gone NewServer [] io_EOF eq_refl).
  - destruct (handleConnection_skeleton fuel peer_gone NewServer) as (n & _ & Hn & Hsk).
    rewrite emitted_NewServer, Hleft, app_nil_r in Hsk. by rewrite Hsk, (Hn Hleft).
Qed.

(** C2, as stated, fails: both writes of this run fail, one of the 400
    fallback and one of the 200 response, and after them the supervisor is
    still in its loop, with a new window set and the connection not
    closed. *)
Lemma write_failure_keeps_the_loop_going :
  let r := handleConnection (env := sample_env) 2 peer_broken_pipe NewServer in
  List.filter is_write (trace r.2) =
    [ EvWrite (list_ascii_of_string
                 ("HTTP/1.1 400 Bad Request" +:+ CRLF +:+ "Content-Length: 0" +:+ CRLF +:+ CRLF))
              (Some (errors_New "write: broken pipe"));
      EvWrite (list_ascii_of_string
                 ("HTTP/1.1 200 OK" +:+ CRLF +:+ "Content-Length: 0" +:+ CRLF
                  +:+ "Date: Thu, 01 Jan 1970 00:00:02 UTC" +:+ CRLF +:+ CRLF))
              (Some (errors_New "write: broken pipe")) ]
  /\ r.1 = false
  /\ skeleton 0 (trace r.2) =
     [MWindow (5 * time_Second); MRead; MWindow (3 * time_Second);
      MRead; MWindow (3 * time_Second)].
Proof. vm_compute. repeat split; reflexivity. Qed.

(** C2, amended. The result of a write is discarded: a write that fails
    does not end the loop of the supervisor and does not have the
    connection closed. Whatever the results [wr] of the writes of a
    connection, the supervisor leaves its loop at the same point as when
    they succeed, or not at all, with the same trace but for those results,
    and it closes the connection when it leaves the loop and not before. In
    a cycle that writes, that is one whose read succeeded, the write has
    the result [wr] gives it and the cycle returns [CloseGraceful] when the
    request parsed and carries [Connection: close], and [KeepOpen]
    otherwise; the supervisor acts on that alone: on [KeepOpen] it sets the
    window of 3 seconds and runs the next cycle, on [CloseGraceful] it
    leaves the loop and closes. *)
Theorem write_results_are_discarded {env : Environment}
    (fuel : nat) (conn : Connection) (wr : nat -> option error) (w : World) :
  let failing := with_writes wr conn in
  (handleConnection fuel failing w).1 = (handleConnection fuel conn w).1
  /\ map forget (trace (handleConnection fuel failing w).2)
     = map forget (trace (handleConnection fuel conn w).2)
  /\ List.filter is_close (emitted w (handleConnection fuel failing w).2)
     = (if (handleConnection fuel failing w).1 then [EvClose] else [])
  /\ forall data,
       read_result conn (reads w) = (data, None) ->
       let closing :=
         match http_ReadRequest data with
         | inl req =>
             bool_decide (strings_ToLower (Header_Get (Header req) "Connection") = "close")
         | inr _ => false
         end in
       (exists sent,
          List.filter is_write (emitted w (onTraffic failing w).2)
          = [EvWrite sent (wr (writes w))])
       /\ outcome (onTraffic failing w).1 = (if closing then CloseGraceful else KeepOpen)
       /\ handleConnection_loop (S fuel) failing w
          = (if closing then (true, (onTraffic failing w).2)
             else handleConnection_loop fuel failing (reset (onTraffic failing w).2))
       /\ take 3 (skeleton 0 (emitted w (handleConnection (S fuel) failing w).2))
          = [MWindow (5 * time_Second); MRead;
             if closing then MClose else MWindow (3 * time_Second)].
Proof.
  cbv zeta. split; [|split; [|split]].
  - rewrite !handleConnection_eq. cbv zeta.
    destruct (handleConnection_loop_alike fuel conn wr
                (record (EvSetReadDeadline (Time_Add (clock (ticks w)) (5 * time_Second)))
                   (record (EvNow (clock (ticks w))) (set_ticks S w)))
                (record (EvSetReadDeadline (Time_Add (clock (ticks w)) (5 * time_Second)))
                   (record (EvNow (clock (ticks w))) (set_ticks S w)))
                (alike_refl _)) as [Hr _].
    rewrite Hr. by destruct (handleConnection_loop fuel conn _).1.
  - rewrite !handleConnection_eq. cbv zeta.
    destruct (handleConnection_loop_alike fuel conn wr
                (record (EvSetReadDeadline (Time_Add (clock (ticks w)) (5 * time_Second)))
                   (record (EvNow (clock (ticks w))) (set_ticks S w)))
                (record (EvSetReadDeadline (Time_Add (clock (ticks w)) (5 * time_Second)))
                   (record (EvNow (clock (ticks w))) (set_ticks S w)))
                (alike_refl _)) as [Hr Hal].
    rewrite Hr. destruct Hal as (_ & _ & _ & _ & _ & _ & _ & Htr).
    destruct (handleConnection_loop fuel conn _).1; cbn [snd trace record];
      by rewrite ?map_app, Htr.
  - destruct (handleConnection_signals fuel (with_writes wr conn) w)
      as (Hleft & _ & Hcl & _).
    by rewrite Hleft.
  - intros data Hread.
    assert (Hread' : read_result (with_writes wr conn) (reads w) = (data, None))
      by exact Hread.
    assert (Hsig : signal (with_writes wr conn) (reads w)
                   = match http_ReadRequest data with
                     | inl req =>
                         if bool_decide
                              (strings_ToLower (Header_Get (Header req) "Connection") = "close")
                         then Some io_EOF else None
                     | inr _ => None
                     end).
    { unfold signal. rewrite Hread'. destruct (http_ReadRequest data) as [req|]; [|done].
      by destruct (decide _); [rewrite bool_decide_eq_true_2|rewrite bool_decide_eq_false_2]. }
    split; [|split; [|split]].
    + destruct (http_ReadRequest data) as [req|errParse] eqn:Hparse.
      * rewrite (onTraffic_parsed_eq _ w data req Hread' Hparse). cbv zeta. cbn [snd].
        pose proof (build_outside (Status http_StatusOK)
                      (record (EvRead data None) (set_reads S w))) as Ho.
        cbn [build] in Ho. apply outside_inv in Ho as (_ & _ & _ & Hw & _ & Ho).
        destruct (SendStatus http_StatusOK _) as [sl w2]. cbn [fst snd] in *.
        eexists.
        erewrite emitted_app;
          [|cbn [trace record set_writes]; rewrite Ho; cbn [trace record set_reads];
            by rewrite <- !app_assoc].
        cbn [List.filter is_write app write_result with_writes]. by rewrite Hw.
      * rewrite (onTraffic_malformed _ w data errParse Hread' Hparse). cbn [snd].
        eexists.
        erewrite emitted_app; [|cbn; by rewrite <- !app_assoc]. reflexivity.
    + rewrite onTraffic_signal, Hsig.
      destruct (http_ReadRequest data) as [req|]; [|done]. by destruct (bool_decide _).
    + rewrite handleConnection_loop_S.
      pose proof (onTraffic_signal (with_writes wr conn) w) as Hres. rewrite Hsig in Hres.
      destruct (onTraffic (with_writes wr conn) w) as [r w1]. cbn [fst snd] in *. subst r.
      destruct (http_ReadRequest data) as [req|]; [|done]. by destruct (bool_decide _).
    + destruct (handleConnection_signals (S fuel) (with_writes wr conn) w)
        as (_ & _ & _ & _ & Hsk).
      rewrite Hsk. cbn [continues]. rewrite Hsig.
      destruct (http_ReadRequest data) as [req|]; [destruct (bool_decide _)|].
      * rewrite bool_decide_eq_true_2 by lia. reflexivity.
      * rewrite continued_S. reflexivity.
      * rewrite continued_S. reflexivity.
Qed.

Lemma write_results_are_discarded_witness :
  outcome (onTraffic (env := sample_env)
             (with_writes (fun _ => Some (errors_New "write: broken pipe")) peer_garbage)
             NewServer).1
  = KeepOpen
  /\ take 3 (skeleton 0
               (emitted NewServer
                  (handleConnection (env := sample_env) 2
                     (with_writes (fun _ => Some (errors_New "write: broken pipe")) peer_garbage)
                     NewServer).2))
     = [MWindow (5 * time_Second); MRead; MWindow (3 * time_Second)].
Proof.
  destruct (write_results_are_discarded (env := sample_env) 1 peer_garbage
              (fun _ => Some (errors_New "write: broken pipe")) NewServer)
    as (_ & _ & _ & Hcycle).
  destruct (Hcycle (list_ascii_of_string "hello") eq_refl) as (_ & Hout & _ & Hsk).
  split; [exact Hout|exact Hsk].
Defined.


(** ** The accept loop *)

(** C10. When the listener cannot be bound, [Run] returns the error and
    accepts nothing. Otherwise it never returns: however many iterations
    are run, it has made that many calls of [Accept], each followed by a
    log entry when it failed and by the start of a supervisor when it
    succeeded. So every failed [Accept] is logged, and every connection
    accepted is handed to a supervisor, also after failed ones. *)
Theorem accept_loop_survives_errors {env : Environment}
    (fuel : nat) (address : string) (w : World) :
  match net_Listen address with
  | Some e =>
      Run fuel address w =
        (Some (fmt_Errorf "listener start: " e), record (EvListen address (Some e)) w)
  | None =>
      (Run fuel address w).1 = None
      /\ accepts (Run fuel address w).2 = (accepts w + fuel)%nat
      /\ emitted w (Run fuel address w).2 =
         EvListen address None
         :: EvLog ("Listening on " +:+ address +:+ " (HTTPS)...")
         :: concat (map accept_events (seq (accepts w) fuel))
      /\ (forall i err, (i < fuel)%nat -> accept_result (accepts w + i) = inr err ->
          EvLog ("failed to accept connection: " +:+ Error err)
            ∈ emitted w (Run fuel address w).2)
      /\ (forall i conn, (i < fuel)%nat -> accept_result (accepts w + i) = inl conn ->
          EvGo (NewConnection conn) ∈ emitted w (Run fuel address w).2)
  end.
Proof.
  rewrite Run_eq. destruct (net_Listen address) as [e|]; [done|]. cbn [fst snd].
  set (w0 := record (EvLog ("Listening on " +:+ address +:+ " (HTTPS)..."))
               (record (EvListen address None) w)).
  destruct (Run_loop_spec fuel w0) as [Hacc Htr].
  assert (Hem : emitted w (Run_loop fuel w0).2 =
                EvListen address None
                :: EvLog ("Listening on " +:+ address +:+ " (HTTPS)...")
                :: concat (map accept_events (seq (accepts w) fuel))).
  { apply emitted_app. rewrite Htr. subst w0. cbn [trace record accepts].
    by rewrite <- !app_assoc. }
  split; [done|]. split; [exact Hacc|]. split; [exact Hem|]. rewrite Hem.
  split; intros i x Hi Hx; do 2 apply list_elem_of_further;
    apply (accept_events_in fuel (accepts w) i _ Hi); unfold accept_events; rewrite Hx;
    apply list_elem_of_further, list_elem_of_here.
Qed.

(** The first [Accept] fails, the second one yields a connection: it is
    handed to a supervisor. *)
Lemma accept_loop_survives_errors_witness :
  accept_result (Environment := sample_env) 0 = inr (errors_New "tls: handshake failure")
  /\ accept_result (Environment := sample_env) 1 = inl peer_gone
  /\ (Run (env := sample_env) 2 ":8443" NewServer).1 = None
  /\ EvGo peer_gone ∈ emitted NewServer (Run (env := sample_env) 2 ":8443" NewServer).2.
Proof.
  split; [reflexivity|]. split; [reflexivity|].
  pose proof (accept_loop_survives_errors (env := sample_env) 2 ":8443" NewServer) as H.
  change (net_Listen (Environment := sample_env) ":8443") with (@None error) in H.
  cbv beta iota in H. destruct H as (Hrun & _ & _ & _ & Hgo).
  split; [exact Hrun|].
  exact (Hgo 1%nat peer_gone ltac:(lia) eq_refl).
Defined.

(** * Further properties of the code *)

(** ** The response builders *)

(** X1. For every status code and body, [SendBody] produces exactly the
    status line, a [Content-Length] header that gives the length of the
    body in bytes, the [Date] header, the empty line, and then the body. *)
Theorem SendBody_wire_format {env : Environment} (statusCode : Z) (body : string) (w : World) :
  wf w ->
  view (SendBody statusCode body w).1 (SendBody statusCode body w).2 =
    list_ascii_of_string
      ("HTTP/1.1 " +:+ fmt_d statusCode +:+ " " +:+ http_StatusText statusCode +:+ CRLF
       +:+ "Content-Length: " +:+ fmt_d (Z.of_nat (String.length body)) +:+ CRLF
       +:+ "Date: " +:+ RFC1123 (clock (ticks w)) +:+ CRLF
       +:+ CRLF
       +:+ body).
Proof.
  intros Hwf.
  destruct (build_spec (Body statusCode body) w Hwf) as (_ & Hview & _).
  cbn [build] in Hview. by rewrite Hview.
Qed.

Lemma SendBody_wire_format_witness :
  wf NewServer
  /\ view (SendBody (env := sample_env) 200 "hello" NewServer).1
          (SendBody (env := sample_env) 200 "hello" NewServer).2 =
     list_ascii_of_string
       ("HTTP/1.1 200 OK" +:+ CRLF +:+ "Content-Length: 5" +:+ CRLF
        +:+ "Date: Thu, 01 Jan 1970 00:00:00 UTC" +:+ CRLF +:+ CRLF +:+ "hello").
Proof.
  split; [exact wf_NewServer|].
  exact (SendBody_wire_format (env := sample_env) 200 "hello" NewServer wf_NewServer).
Defined.

(** X2. With an empty body [SendBody] does what [SendStatus] does: the
    same bytes, the same events, the same pool afterwards. *)
Theorem SendBody_empty_is_SendStatus {env : Environment} (statusCode : Z) (w : World) :
  wf w ->
  view (SendBody statusCode "" w).1 (SendBody statusCode "" w).2
    = view (SendStatus statusCode w).1 (SendStatus statusCode w).2
  /\ outside (SendBody statusCode "" w).2 = outside (SendStatus statusCode w).2.
Proof.
  intros Hwf.
  destruct (build_spec (Body statusCode "") w Hwf) as (_ & Hv1 & _ & Ho1).
  destruct (build_spec (Status statusCode) w Hwf) as (_ & Hv2 & _ & Ho2).
  cbn [build] in *. split; [by rewrite Hv1, Hv2|by rewrite Ho1, Ho2].
Qed.

Lemma SendBody_empty_is_SendStatus_witness :
  wf NewServer
  /\ view (SendBody (env := sample_env) 204 "" NewServer).1
          (SendBody (env := sample_env) 204 "" NewServer).2
     = view (SendStatus (env := sample_env) 204 NewServer).1
            (SendStatus (env := sample_env) 204 NewServer).2.
Proof.
  split; [exact wf_NewServer|].
  exact (proj1 (SendBody_empty_is_SendStatus (env := sample_env) 204 NewServer wf_NewServer)).
Defined.

(** *** Sizes of the heap *)

Lemma Buffer_WriteString_buffers b s w :
  length (buffers (Buffer_WriteString b s w).2) = length (buffers w).
Proof.
  unfold Buffer_WriteString.
  destruct (buffers w !! b) as [B|]; [|done]. cbv zeta.
  destruct (_ <=? _)%nat; [|by cbn; rewrite length_insert].
  destruct (buf_array B); [|done]. by cbn; rewrite length_insert.
Qed.

Section Sizes.
Context {env : Environment}.

Lemma write_all_buffers b chunks w :
  length (buffers (write_all b chunks w).2) = length (buffers w).
Proof.
  revert w. induction chunks as [|s rest IH]; intros w; [done|].
  cbn [write_all]. unfold bind.
  pose proof (Buffer_WriteString_buffers b s w) as H.
  destruct (Buffer_WriteString b s w) as [u w1]. cbn [snd] in H.
  by rewrite IH.
Qed.

(** A builder makes a new buffer only when the pool hands it none. *)
Lemma build_buffers c w :
  length (buffers (build c w).2) =
    match pool_choice w with
    | Some _ => length (buffers w)
    | None => S (length (buffers w))
    end.
Proof.
  rewrite build_unfold. unfold bind.
  assert (Hacq : length (buffers (acquire w).2) =
                 match pool_choice w with
                 | Some _ => length (buffers w)
                 | None => S (length (buffers w))
                 end).
  { unfold acquire, bind, Pool_Get.
    destruct (pool_choice w) as [[b rest]|]; cbn; rewrite length_alter; [done|].
    rewrite length_app. cbn. lia. }
  destruct (acquire w) as [b w1]. cbn [snd] in Hacq.
  pose proof (write_all_buffers b (chunks_before c) w1) as H2.
  destruct (write_all b (chunks_before c) w1) as [u2 w2]. cbn [snd] in H2.
  change (time_Now w2) with (clock (ticks w2), record (EvNow (clock (ticks w2))) (set_ticks S w2)).
  cbv beta iota.
  pose proof (write_all_buffers b (chunks_after c (clock (ticks w2)))
                (record (EvNow (clock (ticks w2))) (set_ticks S w2))) as H4.
  destruct (write_all b (chunks_after c (clock (ticks w2))) _) as [u4 w4]. cbn [snd] in H4.
  pose proof (Buffer_Bytes_world b w4) as H5.
  destruct (Buffer_Bytes b w4) as [sl w5]. cbn [snd] in H5. subst w5.
  cbn. rewrite H4. cbn. by rewrite H2.
Qed.

Lemma write_all_in_place_arrays b chunks w a l arr :
  buffers w !! b = Some (mkBuffer (Some a) l) ->
  arrays w !! a = Some arr ->
  (l + length (flatten chunks) <= length arr)%nat ->
  length (arrays (write_all b chunks w).2) = length (arrays w).
Proof.
  revert w l arr. induction chunks as [|s rest IH]; intros w l arr HB Ha Hfit; [done|].
  cbn [write_all flatten] in *. rewrite length_app in Hfit. unfold bind.
  destruct (Buffer_WriteString_in_place b s w a l arr HB Ha ltac:(lia)) as [HB1 Ha1].
  assert (Hlen : length (arrays (Buffer_WriteString b s w).2) = length (arrays w)).
  { unfold Buffer_WriteString. rewrite HB. cbv zeta. cbn [buf_array buf_len array_of].
    rewrite Ha. cbn [default from_option id].
    destruct (Nat.leb_spec (length (list_ascii_of_string s)) (length arr - l)) as [_|Hno]; [|lia].
    cbn. by rewrite length_insert. }
  destruct (Buffer_WriteString b s w) as [u w1]. cbn [snd] in HB1, Ha1, Hlen.
  rewrite (IH w1 _ _ HB1 Ha1); [done|].
  rewrite copy_at_length by lia. lia.
Qed.

End Sizes.

(** X9. A builder that is handed a pooled buffer whose backing array is
    large enough for its response does not grow it: the pool has no new
    [bytes.Buffer] made, no backing array is added to the heap, and the
    slice returned is over the array the buffer had. (The strings that
    [fmt.Sprintf] and [time.Format] make on the way are values here, not
    objects of the heap; the statement is about the buffer alone.) *)
Theorem reuse_keeps_the_backing_array {env : Environment}
    (c : Build) (w : World) (a l : nat) (arr : bytes) :
  buffers w !! next_buffer w = Some (mkBuffer (Some a) l) ->
  arrays w !! a = Some arr ->
  (length (list_ascii_of_string (payload c (clock (ticks w)))) <= length arr)%nat ->
  length (arrays (build c w).2) = length (arrays w)
  /\ length (buffers (build c w).2) = length (buffers w)
  /\ sl_array (build c w).1 = Some a.
Proof.
  intros HB Ha Hfit.
  rewrite <- payload_flatten in Hfit. rewrite flatten_app, length_app in Hfit.
  assert (Hchoice : exists x, pool_choice w = Some x).
  { unfold next_buffer in HB. destruct (pool_choice w) as [x|]; [by exists x|].
    by rewrite lookup_ge_None_2 in HB. }
  split; [|split].
  - rewrite build_unfold. unfold bind.
    destruct (acquire_pooled w _ HB) as (Hb & Harr1 & Ht1 & HB1). cbn [buf_array] in HB1.
    destruct (acquire w) as [b w1]. cbn [fst snd] in Hb, Harr1, Ht1, HB1. subst b.
    set (b := next_buffer w) in *.
    assert (Ha1 : arrays w1 !! a = Some arr) by (by rewrite Harr1).
    destruct (write_all_in_place b (chunks_before c) w1 a 0 arr HB1 Ha1 ltac:(lia)) as [HB2 Ha2].
    pose proof (write_all_in_place_arrays b (chunks_before c) w1 a 0 arr HB1 Ha1 ltac:(lia)) as Hl2.
    pose proof (write_all_outside b (chunks_before c) w1) as Ho2.
    destruct (write_all b (chunks_before c) w1) as [u2 w2]. cbn [snd] in HB2, Ha2, Hl2, Ho2.
    assert (Ht2 : ticks w2 = ticks w).
    { unfold outside in Ho2. simplify_eq. congruence. }
    change (time_Now w2) with (clock (ticks w2), record (EvNow (clock (ticks w2))) (set_ticks S w2)).
    cbv beta iota. rewrite Ht2.
    set (w3 := record (EvNow (clock (ticks w))) (set_ticks S w2)).
    pose proof (write_all_in_place_arrays b (chunks_after c (clock (ticks w))) w3 a _ _ HB2 Ha2) as Hl4.
    destruct (write_all b (chunks_after c (clock (ticks w))) w3) as [u4 w4]. cbn [snd] in Hl4.
    pose proof (Buffer_Bytes_world b w4) as Hw5.
    destruct (Buffer_Bytes b w4) as [sl w5]. cbn [snd] in Hw5. subst w5.
    cbn. rewrite Hl4.
    + subst w3. cbn. by rewrite Hl2, Harr1.
    + rewrite take_0, app_nil_l, length_app, length_drop. lia.
  - rewrite build_buffers. by destruct Hchoice as [x ->].
  - rewrite build_unfold. unfold bind.
    destruct (acquire_pooled w _ HB) as (Hb & Harr1 & Ht1 & HB1). cbn [buf_array] in HB1.
    destruct (acquire w) as [b w1]. cbn [fst snd] in Hb, Harr1, Ht1, HB1. subst b.
    set (b := next_buffer w) in *.
    assert (Ha1 : arrays w1 !! a = Some arr) by (by rewrite Harr1).
    destruct (write_all_in_place b (chunks_before c) w1 a 0 arr HB1 Ha1 ltac:(lia)) as [HB2 Ha2].
    pose proof (write_all_outside b (chunks_before c) w1) as Ho2.
    destruct (write_all b (chunks_before c) w1) as [u2 w2]. cbn [snd] in HB2, Ha2, Ho2.
    assert (Ht2 : ticks w2 = ticks w).
    { unfold outside in Ho2. simplify_eq. congruence. }
    change (time_Now w2) with (clock (ticks w2), record (EvNow (clock (ticks w2))) (set_ticks S w2)).
    cbv beta iota. rewrite Ht2.
    set (w3 := record (EvNow (clock (ticks w))) (set_ticks S w2)).
    destruct (write_all_in_place b (chunks_after c (clock (ticks w))) w3 a _ _ HB2 Ha2) as [HB4 _].
    { rewrite take_0, app_nil_l, length_app, length_drop. lia. }
    destruct (write_all b (chunks_after c (clock (ticks w))) w3) as [u4 w4]. cbn [snd] in HB4.
    unfold Buffer_Bytes. rewrite HB4. reflexivity.
Qed.

Lemma reuse_keeps_the_backing_array_witness :
  let w := (build (env := sample_env) (Status 404) NewServer).2 in
  length (arrays (build (env := sample_env) (Status 200) w).2) = length (arrays w)
  /\ length (buffers (build (env := sample_env) (Status 200) w).2) = length (buffers w)
  /\ sl_array (build (env := sample_env) (Status 200) w).1 = Some 1%nat.
Proof.
  cbv zeta.
  refine (reuse_keeps_the_backing_array (env := sample_env) (Status 200)
            (build (env := sample_env) (Status 404) NewServer).2 1 82
            (array_of (build (env := sample_env) (Status 404) NewServer).2 (Some 1%nat))
            _ _ _).
  - vm_compute. reflexivity.
  - vm_compute. reflexivity.
  - vm_compute. lia.
Defined.

(** ** One cycle of the handler *)

Section Cycle.
Context {env : Environment}.

(** What one cycle adds to the trace and to the counters. *)
Lemma onTraffic_cycle conn w :
  exists d,
    trace (onTraffic conn w).2 = (trace w ++ d)%list
    /\ cycle_shape d
    /\ io_of d = cycle_io (bool_decide ((read_result conn (reads w)).2 = None))
    /\ reads (onTraffic conn w).2 = S (reads w)
    /\ writes (onTraffic conn w).2 =
       (writes w + if bool_decide ((read_result conn (reads w)).2 = None) then 1 else 0)%nat.
Proof.
  destruct (read_result conn (reads w)) as [data [e|]] eqn:Hread; cbn [snd].
  - rewrite (onTraffic_read_error conn w data e Hread). cbn [snd].
    exists [EvRead data (Some e)]. rewrite bool_decide_eq_false_2 by done.
    split; [done|]. split; [left; by eauto|]. split; [done|]. split; [done|]. cbn. lia.
  - rewrite bool_decide_eq_true_2 by done.
    destruct (http_ReadRequest data) as [req|errParse] eqn:Hparse.
    + rewrite (onTraffic_parsed_eq conn w data req Hread Hparse). cbv zeta. cbn [snd].
      pose proof (build_outside (Status http_StatusOK)
                    (record (EvRead data None) (set_reads S w))) as Ho.
      cbn [build] in Ho.
      destruct (SendStatus http_StatusOK _) as [sl w2]. cbn [fst snd] in *.
      apply outside_inv in Ho as (_ & _ & Hr & Hw & _ & Htr).
      eexists. split; [|split; [|split; [|split]]].
      * cbn [trace record set_writes]. rewrite Htr. cbn [trace record set_reads].
        rewrite <- !app_assoc. reflexivity.
      * right. right. by eauto 10.
      * reflexivity.
      * cbn. by rewrite Hr.
      * cbn. rewrite Hw. cbn. lia.
    + rewrite (onTraffic_malformed conn w data errParse Hread Hparse).
      eexists. split; [|split; [|split; [|split]]].
      * cbn. rewrite <- !app_assoc. reflexivity.
      * right. left. by eauto 10.
      * reflexivity.
      * reflexivity.
      * cbn. lia.
Qed.

Lemma onTraffic_extends conn w :
  trace (onTraffic conn w).2 = (trace w ++ emitted w (onTraffic conn w).2)%list.
Proof.
  destruct (onTraffic_cycle conn w) as (d & Htr & _).
  by rewrite (emitted_app _ _ _ Htr).
Qed.

End Cycle.

(** X4. Every cycle of the handler makes exactly one read, and one write
    exactly when the read succeeded (the response to a request that parses
    or the fallback to one that does not); the write comes after the
    read. *)
Theorem one_read_then_at_most_one_write {env : Environment} (conn : Connection) (w : World) :
  reads (onTraffic conn w).2 = S (reads w)
  /\ writes (onTraffic conn w).2 =
     (writes w + if bool_decide ((read_result conn (reads w)).2 = None) then 1 else 0)%nat
  /\ io_of (emitted w (onTraffic conn w).2)
     = cycle_io (bool_decide ((read_result conn (reads w)).2 = None)).
Proof.
  destruct (onTraffic_cycle conn w) as (d & Htr & _ & Hio & Hr & Hw).
  by rewrite (emitted_app _ _ _ Htr).
Qed.

(** X3. A read that fails with an error other than end-of-stream (the
    idle deadline passing is one) ends the cycle at once: the handler
    returns that error, nothing is written or logged, and the supervisor
    leaves its loop on it. *)
Theorem read_error_leaves_the_loop {env : Environment}
    (conn : Connection) (w : World) (data : bytes) (e : error) (fuel : nat) :
  read_result conn (reads w) = (data, Some e) ->
  e <> io_EOF ->
  (onTraffic conn w).1 = Some e
  /\ outcome (onTraffic conn w).1 = CloseError e
  /\ emitted w (onTraffic conn w).2 = [EvRead data (Some e)]
  /\ handleConnection_loop (S fuel) conn w = (true, (onTraffic conn w).2).
Proof.
  intros Hread Hne. rewrite handleConnection_loop_S.
  rewrite (onTraffic_read_error conn w data e Hread). cbn [fst snd outcome].
  destruct (decide (e = io_EOF)) as [Heq|_]; [done|]. cbn [outcome].
  destruct (decide (e = io_EOF)) as [Heq|_]; [done|].
  split; [done|]. split; [done|]. split; [|done].
  apply emitted_app. reflexivity.
Qed.

Lemma read_error_leaves_the_loop_witness :
  outcome (onTraffic (env := sample_env) peer_silent NewServer).1
    = CloseError os_ErrDeadlineExceeded
  /\ emitted NewServer (onTraffic (env := sample_env) peer_silent NewServer).2
     = [EvRead [] (Some os_ErrDeadlineExceeded)].
Proof.
  pose proof (read_error_leaves_the_loop (env := sample_env) peer_silent NewServer
                [] os_ErrDeadlineExceeded 0 eq_refl ltac:(discriminate)) as (_ & H1 & H2 & _).
  split; [exact H1|exact H2].
Defined.



(** ** The supervisor, cycle by cycle *)

Lemma io_of_app tr1 tr2 : io_of (tr1 ++ tr2) = (io_of tr1 ++ io_of tr2)%list.
Proof. induction tr1 as [|e tr1 IH]; [done|]. destruct e; cbn; by rewrite ?IH. Qed.

Lemma cycle_shape_no_close d : cycle_shape d -> List.filter is_close d = [].
Proof.
  intros [(data & e & ->)|[(data & msg & wr & ->)|(data & b & t & sent & wr & ->)]]; reflexivity.
Qed.

Section Cycles.
Context {env : Environment}.
Variable Inv : World -> Prop.
Variable P : list Event -> Prop.
Variable conn : Connection.
Hypothesis Inv_cycle :
  forall w, Inv w -> Inv (onTraffic conn w).2 /\ P (emitted w (onTraffic conn w).2).
Hypothesis Inv_record : forall w e, Inv w -> Inv (record e w).
Hypothesis Inv_tick : forall w, Inv w -> Inv (set_ticks S w).

(** The trace of the loop, cycle by cycle: the cycles that continued,
    each with the deadline set after it, and the cycle on which the loop
    was left, if it was. An invariant of the cycles holds throughout, and
    what holds of the events of every cycle holds of each of them. *)
Lemma handleConnection_loop_cycles fuel w :
  Inv w ->
  exists cycles final,
    (length cycles <= fuel)%nat
    /\ Forall (fun c => P c.1) cycles
    /\ (if (handleConnection_loop fuel conn w).1 then P final else final = [])
    /\ Inv (handleConnection_loop fuel conn w).2
    /\ trace (handleConnection_loop fuel conn w).2
       = (trace w ++ concat (map continuing cycles) ++ final)%list.
Proof.
  revert w. induction fuel as [|fuel IH]; intros w HI.
  - exists [], []. cbn. by rewrite app_nil_r.
  - rewrite handleConnection_loop_S.
    destruct (Inv_cycle w HI) as [HI1 HP1].
    pose proof (onTraffic_extends conn w) as Htr1.
    destruct (onTraffic conn w) as [[e|] w1]; cbn [fst snd] in *.
    + exists [], (emitted w w1). cbn. split; [lia|]. by split.
    + set (t := clock (ticks w1)).
      set (w2 := record (EvSetReadDeadline (Time_Add t (3 * time_Second)))
                   (record (EvNow t) (set_ticks S w1))).
      assert (HI2 : Inv w2) by (subst w2; auto).
      destruct (IH w2 HI2) as (cycles & final & Hlen & Hall & Hfin & HI3 & Htr3).
      exists ((emitted w w1, t) :: cycles), final.
      split; [cbn; lia|]. split; [constructor; [exact HP1|exact Hall]|]. split; [exact Hfin|].
      split; [exact HI3|].
      rewrite Htr3. subst w2. unfold continuing.
      cbn [trace record set_ticks map concat fst snd]. rewrite Htr1.
      rewrite <- !app_assoc. reflexivity.
Qed.

Lemma handleConnection_cycles fuel w :
  Inv w ->
  exists cycles final,
    (length cycles <= fuel)%nat
    /\ Forall (fun c => P c.1) cycles
    /\ (if (handleConnection fuel conn w).1 then P final else final = [])
    /\ Inv (handleConnection fuel conn w).2
    /\ emitted w (handleConnection fuel conn w).2
       = (EvNow (clock (ticks w))
          :: EvSetReadDeadline (Time_Add (clock (ticks w)) (5 * time_Second))
          :: concat (map continuing cycles) ++ final
             ++ if (handleConnection fuel conn w).1 then [EvClose] else [])%list.
Proof.
  intros HI. rewrite handleConnection_eq. cbv zeta.
  set (t := clock (ticks w)).
  set (w1 := record (EvSetReadDeadline (Time_Add t (5 * time_Second)))
               (record (EvNow t) (set_ticks S w))).
  assert (HI1 : Inv w1) by (subst w1; auto).
  destruct (handleConnection_loop_cycles fuel w1 HI1)
    as (cycles & final & Hlen & Hall & Hfin & HI2 & Htr).
  exists cycles, final. split; [exact Hlen|]. split; [exact Hall|].
  destruct (handleConnection_loop fuel conn w1) as [[|] w2]; cbn [fst snd] in *.
  - split; [exact Hfin|]. split; [by apply Inv_record|].
    apply emitted_app. cbn [trace record]. rewrite Htr. subst w1.
    cbn [trace record set_ticks]. by rewrite <- !app_assoc.
  - split; [exact Hfin|]. split; [exact HI2|].
    apply emitted_app. rewrite Htr. subst w1.
    cbn [trace record set_ticks]. rewrite <- !app_assoc. cbn. by rewrite app_nil_r.
Qed.

End Cycles.

Lemma filter_close_cycles (cycles : list (list Event * Time)) :
  Forall (fun c => List.filter is_close c.1 = []) cycles ->
  List.filter is_close (concat (map continuing cycles)) = [].
Proof.
  induction 1 as [|c cycles Hc _ IH]; [done|].
  cbn [map concat]. unfold continuing at 1.
  by rewrite !List.filter_app, Hc, IH.
Qed.

(** X6. The supervisor closes its connection exactly once, as the last
    thing it does, when it leaves its loop; as long as it is in the loop it
    has not closed it. *)
Theorem closes_exactly_once {env : Environment} (fuel : nat) (conn : Connection) (w : World) :
  List.filter is_close (emitted w (handleConnection fuel conn w).2)
    = (if (handleConnection fuel conn w).1 then [EvClose] else [])
  /\ ((handleConnection fuel conn w).1 = false
      \/ last (emitted w (handleConnection fuel conn w).2) = Some EvClose).
Proof.
  destruct (handleConnection_cycles (fun _ => True)
              (fun d => List.filter is_close d = []) conn) with (fuel := fuel) (w := w)
    as (cycles & final & _ & Hall & Hfin & _ & Hem); try done.
  { intros w0 _. split; [done|].
    destruct (onTraffic_cycle conn w0) as (d & Htr & Hshape & _).
    rewrite (emitted_app _ _ _ Htr). by apply cycle_shape_no_close. }
  rewrite Hem. destruct (handleConnection fuel conn w).1.
  - split.
    + cbn [List.filter is_close]. rewrite !List.filter_app, (filter_close_cycles _ Hall), Hfin.
      reflexivity.
    + right. rewrite !app_comm_cons, !app_assoc. apply last_snoc.
  - split; [|by left]. subst final.
    cbn [List.filter is_close]. rewrite !List.filter_app, (filter_close_cycles _ Hall).
    reflexivity.
Qed.

Lemma io_cycles (cycles : list (list Event * Time)) :
  Forall (fun c => exists answered, io_of c.1 = cycle_io answered) cycles ->
  exists answers, length answers = length cycles
                  /\ io_of (concat (map continuing cycles)) = concat (map cycle_io answers).
Proof.
  induction 1 as [|c cycles [a Ha] _ (answers & Hlen & IH)]; [by exists []|].
  exists (a :: answers). split; [cbn; lia|].
  cbn [map concat]. unfold continuing at 1.
  rewrite !io_of_app, Ha, IH. cbn. by rewrite app_nil_r.
Qed.

(** X10. On its connection the supervisor works in half-duplex: its reads
    and writes are, cycle after cycle, one read followed by at most one
    write; the response to one read is written before the next read. *)
Theorem reads_and_writes_alternate {env : Environment}
    (fuel : nat) (conn : Connection) (w : World) :
  exists answers : list bool,
    (length answers <= S fuel)%nat
    /\ io_of (emitted w (handleConnection fuel conn w).2) = concat (map cycle_io answers).
Proof.
  destruct (handleConnection_cycles (fun _ => True)
              (fun d => exists answered, io_of d = cycle_io answered) conn)
    with (fuel := fuel) (w := w)
    as (cycles & final & Hlen & Hall & Hfin & _ & Hem); try done.
  { intros w0 _. split; [done|].
    destruct (onTraffic_cycle conn w0) as (d & Htr & _ & Hio & _).
    rewrite (emitted_app _ _ _ Htr). by eexists. }
  destruct (io_cycles _ Hall) as (answers & Hlen' & Hio).
  rewrite Hem. cbn [io_of]. rewrite !io_of_app, Hio.
  destruct (handleConnection fuel conn w).1.
  - destruct Hfin as [a Ha]. exists (answers ++ [a])%list.
    split; [rewrite length_app; cbn; lia|].
    rewrite map_app, concat_app, Ha. cbn. by rewrite !app_nil_r.
  - subst final. exists answers. split; [lia|]. cbn. by rewrite app_nil_r.
Qed.

(** ** The pool over the life of a connection *)

Lemma NoDup_delete_lookup (l : list nat) i x :
  NoDup l -> l !! i = Some x -> (x ∉ delete i l) /\ NoDup (delete i l).
Proof.
  intros Hnd Hi. rewrite delete_take_drop.
  rewrite <- (take_drop_middle l i x Hi) in Hnd.
  apply NoDup_app in Hnd as (Hnd1 & Hdisj & Hnd2).
  apply NoDup_cons in Hnd2 as [Hx Hnd2].
  split.
  - rewrite elem_of_app. intros [Hin|Hin]; [|done].
    apply (Hdisj x Hin). apply list_elem_of_here.
  - apply NoDup_app. split; [done|]. split; [|done].
    intros y Hy Hy'. apply (Hdisj y Hy). by apply list_elem_of_further.
Qed.

Lemma wf_heap w w' :
  arrays w' = arrays w -> buffers w' = buffers w -> bufferPool w' = bufferPool w ->
  wf w -> wf w'.
Proof.
  intros Ha Hb Hp [H1 H2]. unfold wf, array_of. by rewrite Ha, Hb, Hp.
Qed.

Section Pool.
Context {env : Environment}.

Lemma next_buffer_fresh w :
  wf w -> NoDup (bufferPool w) ->
  (next_buffer w ∉ pool_after_get w) /\ NoDup (pool_after_get w).
Proof.
  intros [Hpool _] Hnd. unfold next_buffer, pool_after_get.
  destruct (pool_choice w) as [[b rest]|] eqn:Hc.
  - destruct (pool_choice_Some w b rest Hc) as (i & Hi & ->).
    by apply NoDup_delete_lookup.
  - split; [|done]. intros Hin. rewrite Forall_forall in Hpool.
    specialize (Hpool _ Hin). cbn in Hpool. lia.
Qed.

(** One cycle either leaves the heap and the pool alone, or is a call of
    [SendStatus] on them. *)
Lemma onTraffic_heap conn w :
  (arrays (onTraffic conn w).2 = arrays w
   /\ buffers (onTraffic conn w).2 = buffers w
   /\ bufferPool (onTraffic conn w).2 = bufferPool w)
  \/ (exists w1,
        arrays w1 = arrays w /\ buffers w1 = buffers w /\ bufferPool w1 = bufferPool w
        /\ arrays (onTraffic conn w).2 = arrays (build (Status http_StatusOK) w1).2
        /\ buffers (onTraffic conn w).2 = buffers (build (Status http_StatusOK) w1).2
        /\ bufferPool (onTraffic conn w).2 = bufferPool (build (Status http_StatusOK) w1).2).
Proof.
  destruct (read_result conn (reads w)) as [data [e|]] eqn:Hread.
  - left. by rewrite (onTraffic_read_error conn w data e Hread).
  - destruct (http_ReadRequest data) as [req|errParse] eqn:Hparse.
    + right. rewrite (onTraffic_parsed_eq conn w data req Hread Hparse). cbv zeta.
      exists (record (EvRead data None) (set_reads S w)). by cbn.
    + left. by rewrite (onTraffic_malformed conn w data errParse Hread Hparse).
Qed.

Lemma build_pool c w :
  bufferPool (build c w).2 = next_buffer w :: pool_after_get w.
Proof.
  pose proof (build_outside c w) as Ho. by apply outside_inv in Ho as (? & _).
Qed.

Lemma onTraffic_pool_invariant conn w :
  wf w /\ NoDup (bufferPool w) ->
  wf (onTraffic conn w).2 /\ NoDup (bufferPool (onTraffic conn w).2).
Proof.
  intros [Hwf Hnd].
  destruct (onTraffic_heap conn w) as [(Ha & Hb & Hp)|(w1 & Ha & Hb & Hp & Ha' & Hb' & Hp')].
  - split; [by apply (wf_heap w)|by rewrite Hp].
  - assert (Hwf1 : wf w1) by (by apply (wf_heap w)).
    assert (Hnd1 : NoDup (bufferPool w1)) by (by rewrite Hp).
    destruct (build_spec (Status http_StatusOK) w1 Hwf1) as (Hwf2 & _).
    split; [by apply (wf_heap (build (Status http_StatusOK) w1).2)|].
    rewrite Hp', build_pool. apply NoDup_cons. by apply next_buffer_fresh.
Qed.

End Pool.

(** X7. No buffer is ever at rest in the pool twice: when the pool holds
    existing buffers, each once, it still does after a call of a builder,
    and after any run of a supervisor. *)
Theorem pool_holds_each_buffer_once {env : Environment}
    (c : Build) (fuel : nat) (conn : Connection) (w : World) :
  wf w ->
  NoDup (bufferPool w) ->
  (wf (build c w).2 /\ NoDup (bufferPool (build c w).2))
  /\ (wf (handleConnection fuel conn w).2 /\ NoDup (bufferPool (handleConnection fuel conn w).2)).
Proof.
  intros Hwf Hnd. split.
  - destruct (build_spec c w Hwf) as (Hwf' & _). split; [exact Hwf'|].
    rewrite build_pool. apply NoDup_cons. by apply next_buffer_fresh.
  - destruct (handleConnection_cycles (fun w => wf w /\ NoDup (bufferPool w))
                (fun _ => True) conn) with (fuel := fuel) (w := w)
      as (_ & _ & _ & _ & _ & HI & _); try done.
    intros w0 H0. split; [by apply onTraffic_pool_invariant|done].
Qed.

Lemma pool_holds_each_buffer_once_witness :
  NoDup (bufferPool (handleConnection (env := sample_env) 3 peer_one_request NewServer).2).
Proof.
  exact (proj2 (proj2 (pool_holds_each_buffer_once (env := sample_env) (Status 200) 3
                         peer_one_request NewServer wf_NewServer (NoDup_nil_2 (A := nat))))).
Defined.

(** X11. With the pool a free list, a supervisor has at most one buffer
    made over its whole run, and none when a buffer was at rest at its
    start: every response after the first is built in a buffer that was
    used before. *)
Theorem supervisor_allocates_at_most_one_buffer {env : Environment}
    (fuel : nat) (conn : Connection) (w : World) :
  (forall l, pool_pick l = free_list l) ->
  (length (buffers (handleConnection fuel conn w).2) <= S (length (buffers w)))%nat
  /\ (bufferPool w = []
      \/ length (buffers (handleConnection fuel conn w).2) = length (buffers w)).
Proof.
  intros Hlifo.
  set (Inv := fun w' : World =>
    (bufferPool w' <> [] /\ (length (buffers w') <= S (length (buffers w)))%nat
     /\ (bufferPool w = [] \/ length (buffers w') = length (buffers w)))
    \/ (bufferPool w' = [] /\ bufferPool w = [] /\ length (buffers w') = length (buffers w))).
  destruct (handleConnection_cycles Inv (fun _ => True) conn) with (fuel := fuel) (w := w)
    as (_ & _ & _ & _ & _ & HI & _); try done.
  - intros w0 H0. split; [|done].
    destruct (onTraffic_heap conn w0) as [(Ha & Hb & Hp)|(w1 & Ha & Hb & Hp & Ha' & Hb' & Hp')].
    + unfold Inv in *. by rewrite Hb, Hp.
    + unfold Inv in *. rewrite Hb', Hp', build_pool, build_buffers.
      unfold pool_choice. rewrite Hlifo, Hp, Hb.
      destruct H0 as [(Hne & Hle & Hsame)|(He & He0 & Hlen)].
      * left. destruct (bufferPool w0) as [|b0 rest]; [done|]. cbn. done.
      * left. rewrite He. cbn. split; [done|]. split; [lia|by left].
  - unfold Inv. destruct (bufferPool w) as [|b rest] eqn:Hp.
    + right. done.
    + left. split; [done|]. split; [lia|by right].
  - unfold Inv in HI. destruct HI as [(_ & Hle & Hsame)|(_ & He0 & Hlen)].
    + done.
    + split; [lia|by left].
Qed.

Lemma supervisor_allocates_at_most_one_buffer_witness :
  (length (buffers (handleConnection (env := sample_env) 4 peer_broken_pipe NewServer).2) <= 1)%nat.
Proof.
  exact (proj1 (supervisor_allocates_at_most_one_buffer (env := sample_env) 4
                  peer_broken_pipe NewServer (fun l => eq_refl))).
Defined.

(** ** What a supervisor sends *)

Lemma sends_a_response_cycles {env : Environment} (cycles : list (list Event * Time)) :
  Forall (fun c => Forall sends_a_response c.1) cycles ->
  Forall sends_a_response (concat (map continuing cycles)).
Proof.
  induction 1 as [|c cycles Hc _ IH]; [constructor|].
  cbn [map concat]. unfold continuing at 1.
  apply Forall_app. split; [|exact IH].
  apply Forall_app. split; [exact Hc|]. by repeat constructor.
Qed.

(** X8. Whatever the peer sends, a supervisor writes nothing to its
    connection but the literal 400 fallback and 200 responses with a date:
    every write of its run is one of the two. *)
Theorem supervisor_sends_only_its_responses {env : Environment}
    (fuel : nat) (conn : Connection) (w : World) :
  wf w ->
  Forall sends_a_response (emitted w (handleConnection fuel conn w).2).
Proof.
  intros Hwf.
  destruct (handleConnection_cycles wf (Forall sends_a_response) conn)
    with (fuel := fuel) (w := w) as (cycles & final & _ & Hall & Hfin & _ & Hem); try done.
  - intros w0 Hwf0.
    destruct (read_result conn (reads w0)) as [data [e|]] eqn:Hread.
    + rewrite (onTraffic_read_error conn w0 data e Hread). cbn [snd]. split; [exact Hwf0|].
      erewrite emitted_app by reflexivity. by repeat constructor.
    + destruct (http_ReadRequest data) as [req|errParse] eqn:Hparse.
      * destruct (onTraffic_parsed conn w0 data req Hwf0 Hread Hparse) as (_ & Hwf1 & Hout).
        split; [exact Hwf1|]. apply outside_trace in Hout.
        rewrite (emitted_app _ _ _ Hout).
        do 4 (apply Forall_cons; split; [exact I|]).
        apply Forall_cons. split; [right; by eexists|constructor].
      * rewrite (onTraffic_malformed conn w0 data errParse Hread Hparse). cbn [snd].
        split; [exact Hwf0|].
        erewrite emitted_app; [|cbn; by rewrite <- !app_assoc].
        do 2 (apply Forall_cons; split; [exact I|]).
        apply Forall_cons. split; [by left|constructor].
  - rewrite Hem. do 2 (constructor; [done|]).
    apply Forall_app. split; [by apply sends_a_response_cycles|].
    apply Forall_app. split.
    + destruct (handleConnection fuel conn w).1; [exact Hfin|subst final; constructor].
    + destruct (handleConnection fuel conn w).1; by repeat constructor.
Qed.

Lemma supervisor_sends_only_its_responses_witness :
  Forall (sends_a_response (env := sample_env))
    (emitted NewServer (handleConnection (env := sample_env) 3 peer_garbage NewServer).2).
Proof.
  exact (supervisor_sends_only_its_responses (env := sample_env) 3 peer_garbage NewServer
           wf_NewServer).
Defined.

(** ** The supervisor returns *)

Lemma handleConnection_loop_returns {env : Environment} conn e k :
  e <> io_EOF ->
  forall fuel w,
    (read_result conn (reads w + k)).2 = Some e ->
    (k < fuel)%nat ->
    (handleConnection_loop fuel conn w).1 = true
    /\ (reads (handleConnection_loop fuel conn w).2 <= reads w + k + 1)%nat.
Proof.
  intros Hne. induction k as [|k IH]; intros fuel w Hread Hfuel;
    (destruct fuel as [|fuel]; [lia|]); rewrite handleConnection_loop_S;
    destruct (onTraffic_cycle conn w) as (_ & _ & _ & _ & Hr & _).
  - rewrite Nat.add_0_r in Hread.
    destruct (read_result conn (reads w)) as [data oe] eqn:Hrd. cbn [snd] in Hread. subst oe.
    rewrite (onTraffic_read_error conn w data e Hrd).
    destruct (decide (e = io_EOF)); [done|]. cbn. split; [done|lia].
  - destruct (onTraffic conn w) as [[e'|] w1]; cbn [fst snd] in *.
    + split; [done|lia].
    + destruct (IH fuel
                  (record (EvSetReadDeadline (Time_Add (clock (ticks w1)) (3 * time_Second)))
                     (record (EvNow (clock (ticks w1))) (set_ticks S w1)))) as [Hleft Hreads].
      * cbn [reads record set_ticks]. rewrite Hr.
        by replace (S (reads w) + k)%nat with (reads w + S k)%nat by lia.
      * lia.
      * split; [exact Hleft|]. cbn [reads record set_ticks] in Hreads. lia.
Qed.

(** X5. A supervisor returns, and so closes its connection, as soon as a
    read fails with an error other than end-of-stream: when the read that
    is [k] reads away is to fail so (the idle deadline passing with nothing
    received is the case in point), the supervisor has left its loop after
    at most [k + 1] cycles, and has read no further. *)
Theorem supervisor_returns_on_read_error {env : Environment}
    (conn : Connection) (w : World) (e : error) (k fuel : nat) :
  (read_result conn (reads w + k)).2 = Some e ->
  e <> io_EOF ->
  (k < fuel)%nat ->
  (handleConnection fuel conn w).1 = true
  /\ (reads (handleConnection fuel conn w).2 <= reads w + k + 1)%nat
  /\ last (trace (handleConnection fuel conn w).2) = Some EvClose.
Proof.
  intros Hread Hne Hfuel. rewrite handleConnection_eq. cbv zeta.
  destruct (handleConnection_loop_returns conn e k Hne fuel
              (record (EvSetReadDeadline (Time_Add (clock (ticks w)) (5 * time_Second)))
                 (record (EvNow (clock (ticks w))) (set_ticks S w))) Hread Hfuel)
    as [Hleft Hreads].
  destruct (handleConnection_loop fuel conn _) as [left w1]. cbn [fst snd] in *. subst left.
  cbn [fst snd reads record set_ticks trace] in *. split; [done|]. split; [exact Hreads|].
  apply last_snoc.
Qed.

(** After its one request the peer sends nothing: the second read runs
    into the deadline and the supervisor returns. *)
Lemma supervisor_returns_on_read_error_witness :
  (handleConnection (env := sample_env) 2 peer_one_request NewServer).1 = true
  /\ (reads (handleConnection (env := sample_env) 2 peer_one_request NewServer).2 <= 2)%nat.
Proof.
  pose proof (supervisor_returns_on_read_error (env := sample_env) peer_one_request NewServer
                os_ErrDeadlineExceeded 1 2 eq_refl ltac:(discriminate) ltac:(lia))
    as (H1 & H2 & _).
  split; [exact H1|exact H2].
Defined.

(** ** The accept loop *)

(** X12. The accept loop does nothing on the connections it accepts: it
    neither reads from them, nor writes to them, nor sets a deadline, nor
    closes them; all of that is left to the supervisors it starts. *)
Theorem accept_loop_leaves_connections_alone {env : Environment}
    (fuel : nat) (address : string) (w : World) :
  List.filter on_connection (emitted w (Run fuel address w).2) = [].
Proof.
  rewrite Run_eq. destruct (net_Listen address) as [e|]; cbn [snd].
  - assert (Hem : emitted w (record (EvListen address (Some e)) w) = [EvListen address (Some e)])
      by (by apply emitted_app).
    by rewrite Hem.
  - set (w0 := record (EvLog ("Listening on " +:+ address +:+ " (HTTPS)..."))
                 (record (EvListen address None) w)).
    destruct (Run_loop_spec fuel w0) as [_ Htr].
    assert (Hem : emitted w (Run_loop fuel w0).2 =
                  EvListen address None
                  :: EvLog ("Listening on " +:+ address +:+ " (HTTPS)...")
                  :: concat (map accept_events (seq (accepts w0) fuel))).
    { apply emitted_app. rewrite Htr. subst w0. cbn [trace record]. by rewrite <- !app_assoc. }
    rewrite Hem. cbn [List.filter on_connection].
    generalize (accepts w0). clear. intros start. revert start.
    induction fuel as [|fuel IH]; intros start; [done|].
    cbn [seq map concat]. rewrite List.filter_app, IH, app_nil_r.
    unfold accept_events. by destruct (accept_result start).
Qed.

(** ** Diagnostics of the handler *)

(** X14. The handler never writes to the log itself. When the bytes read
    do not parse it starts one goroutine that is to log the parser's error,
    and starts it before it writes the fallback; a failed read,
    end-of-stream and a request that is answered start none. *)
Theorem parse_errors_are_logged_by_a_goroutine {env : Environment}
    (conn : Connection) (w : World) :
  List.filter is_log (emitted w (onTraffic conn w).2) = []
  /\ List.filter is_go_log (emitted w (onTraffic conn w).2) =
     match read_result conn (reads w) with
     | (_, Some _) => []
     | (data, None) =>
         match http_ReadRequest data with
         | inl _ => []
         | inr errParse => [EvGoLog ("failed to parse HTTP request: " +:+ Error errParse)]
         end
     end
  /\ List.filter (fun e => is_go_log e || is_write e) (emitted w (onTraffic conn w).2) =
     match read_result conn (reads w) with
     | (_, Some _) => []
     | (data, None) =>
         match http_ReadRequest data with
         | inl _ => List.filter is_write (emitted w (onTraffic conn w).2)
         | inr errParse =>
             [EvGoLog ("failed to parse HTTP request: " +:+ Error errParse);
              EvWrite (list_ascii_of_string badRequest) (write_result conn (writes w))]
         end
     end.
Proof.
  destruct (read_result conn (reads w)) as [data [e|]] eqn:Hread.
  - rewrite (onTraffic_read_error conn w data e Hread). cbn [snd].
    by erewrite emitted_app by reflexivity.
  - destruct (http_ReadRequest data) as [req|errParse] eqn:Hparse.
    + rewrite (onTraffic_parsed_eq conn w data req Hread Hparse). cbv zeta. cbn [snd].
      pose proof (build_outside (Status http_StatusOK)
                    (record (EvRead data None) (set_reads S w))) as Ho.
      cbn [build] in Ho. apply outside_trace in Ho.
      destruct (SendStatus http_StatusOK _) as [sl w2]. cbn [fst snd] in *.
      erewrite emitted_app;
        [|cbn [trace record set_writes]; rewrite Ho; cbn [trace record set_reads];
          by rewrite <- !app_assoc].
      done.
    + rewrite (onTraffic_malformed conn w data errParse Hread Hparse). cbn [snd].
      erewrite emitted_app; [|cbn; by rewrite <- !app_assoc]. done.
Qed.
